(** * Portfolio ledger and trade execution of the paper-trading simulator

    A shallow embedding of the two stores of [src/state/positionStore.ts]
    (the position store and the portfolio store), of the constants of
    [src/types/trading.ts] and of the calculations of the analytics
    module, followed by the properties of the ledger, of the two stores
    and of the calculations.

    JavaScript numbers are idealised as exact rationals ([Qc]); the rounding
    of binary64 arithmetic and the infinities are outside the model, and so is
    [NaN] except in the one field where the code produces it from an absent
    field (the cached P&L of a position, an [option]).
    [Date.now()] and [Math.random()] are read from a host oracle that is
    threaded through every action together with the store.

    Because rounding is outside the model, the properties of the amounts
    are stated on the expressions that the code evaluates and on
    comparisons between them, which hold of the rounded operations as
    well, and not on rearrangements of those expressions by the laws of a
    field. *)

From Stdlib Require Import QArith Qcanon.
From Stdlib Require Qcabs.
From stdpp Require Import base option list sorting strings gmap numbers pretty.

Local Open Scope Qc_scope.

(** ** Numbers *)

Abbreviation number := Qc.

Definition num (z : Z) : number := Qc_of_Z z.

(** Sum of a list of numbers, the Σ of the ledger identities. *)
Definition Qcsum (l : list number) : number := foldr Qcplus 0 l.

(** ** Host: clock and entropy *)

Record Host := mkHost {
  clock : nat → Z;        (* the value of the n-th host call, read as Date.now() *)
  entropy : nat → string; (* the same, read as Math.random().toString(36).substr(2, 9) *)
  calls : nat             (* host calls made so far *)
}.

Definition advance (h : Host) : Host :=
  mkHost (clock h) (entropy h) (S (calls h)).

(** ** The store monad: a store of type [S] and the host *)

Definition M (S A : Type) : Type := S → Host → A * S * Host.

Definition ret {S A} (a : A) : M S A := λ s h, (a, s, h).

Definition bind {S A B} (m : M S A) (k : A → M S B) : M S B :=
  λ s h, let '(a, s', h') := m s h in k a s' h'.

Notation "'let*' x ':=' m 'in' k" := (bind m (λ x, k))
  (at level 10, x name, m at level 100, k at level 200, only parsing).
Notation "m ';;' k" := (bind m (λ _, k))
  (at level 100, k at level 200, right associativity, only parsing).

(** zustand's [get()] and [set(fn)] *)
Definition get {S} : M S S := λ s h, (s, s, h).
Definition set {S} (f : S → S) : M S unit := λ s h, (tt, f s, h).

Definition Date_now {S} : M S Z :=
  λ s h, (clock h (calls h), s, advance h).

Definition Math_random_suffix {S} : M S string :=
  λ s h, (entropy h (calls h), s, advance h).

(** [`${prefix}_${Date.now()}_${Math.random().toString(36).substr(2, 9)}`] *)
Definition generateId {S} (prefix : string) : M S string :=
  let* now := Date_now in
  let* rnd := Math_random_suffix in
  ret (prefix +:+ "_" +:+ pretty now +:+ "_" +:+ rnd).

(** JavaScript's [a || b] on an optional string: [null], [undefined] and the
    empty string are falsy. *)
Definition truthy_string (a : option string) : option string :=
  match a with
  | Some s => if decide (s = "") then None else Some s
  | None => None
  end.

(** JavaScript's [a || b] on an optional number with a number default:
    [undefined] and [0] are falsy. *)
Definition number_or (a : option number) (b : number) : number :=
  match a with
  | Some v => if decide (v = 0) then b else v
  | None => b
  end.

(** [Array.prototype.sort(compare)] is stable; with a comparator that orders
    by a key its result is the one of a stable insertion sort. [before x y]
    says that [compare(x, y) <= 0]. *)
Fixpoint insertSorted {A} (before : A → A → bool) (x : A) (l : list A) : list A :=
  match l with
  | [] => [x]
  | y :: l' => if before x y then x :: y :: l' else y :: insertSorted before x l'
  end.

Definition sortBy {A} (before : A → A → bool) (l : list A) : list A :=
  foldr (insertSorted before) [] l.

(** [Math.abs(x)] *)
Definition Math_abs (x : number) : number := Qcabs.Qcabs x.

(** [Math.max(a, b)] and [Math.min(a, b)] *)
Definition Math_max (a b : number) : number := if decide (a < b) then b else a.
Definition Math_min (a b : number) : number := if decide (b < a) then b else a.

(** ** src/types/trading.ts *)

Module Trading.

Inductive OrderType := market | limit.
Inductive OrderSide := buy | sell.
Inductive OrderStatus := pending | filled | cancelled.

#[global] Instance OrderSide_eq_dec : EqDecision OrderSide.
Proof. solve_decision. Defined.

Module Order.
Record t := mk {
  id : string;
  portfolioId : string;
  symbol : string;
  side : OrderSide;
  type : OrderType;
  quantity : number;
  price : option number;
  status : OrderStatus;
  createdAt : Z;
  filledAt : option Z;
  filledPrice : option number
}.
End Order.

Module Position.
Record t := mk {
  id : string;
  portfolioId : string;
  symbol : string;
  side : OrderSide;
  quantity : number;
  entryPrice : number;
  currentPrice : number;
  unrealizedPnL : option number; (* [None] is NaN, see [calculatePositionPnL] *)
  unrealizedPnLPercent : number;
  createdAt : Z;
  updatedAt : Z
}.
End Position.

Module Transaction.
Record t := mk {
  id : string;
  portfolioId : string;
  symbol : string;
  side : OrderSide;
  quantity : number;
  price : number;
  fee : number;
  total : number;
  timestamp : Z;
  orderId : option string
}.
End Transaction.

Module Portfolio.
Record t := mk {
  id : string;
  name : string;
  initialBalance : number;
  currentBalance : number;
  totalValue : number;
  totalPnL : number;
  totalPnLPercent : number;
  createdAt : Z;
  updatedAt : Z
}.
End Portfolio.

Definition INITIAL_PORTFOLIO_BALANCE : number := num 100000.
Definition DEFAULT_TRADING_FEE_PERCENT : number := Q2Qc (1 # 1000). (* 0.1% *)

End Trading.

(** ** The portfolio store (second store of src/state/positionStore.ts) *)

Module PortfolioStore.

Inductive PositionType := long | short.
Inductive TradeType := buy | sell.

Module Position.
Record t := mk {
  id : string;
  symbol : string;
  quantity : number;
  entryPrice : number;
  entryTime : Z;
  type : PositionType
}.
End Position.

Module Transaction.
Record t := mk {
  id : string;
  symbol : string;
  type : TradeType;
  quantity : number;
  price : number;
  timestamp : Z;
  portfolioId : string
}.
End Transaction.

Module Portfolio.
Record t := mk {
  id : string;
  name : string;
  balance : number;         (* available cash *)
  currentBalance : number;  (* alias of balance, kept in sync *)
  initialBalance : number;
  positions : list Position.t;
  transactions : list Transaction.t;
  createdAt : Z
}.
End Portfolio.

(** The argument of [executeTrade]. *)
Module Trade.
Record t := mk {
  symbol : string;
  type : TradeType;
  quantity : number;
  price : number
}.
End Trade.

Record PortfolioState := mkState {
  portfolios : list Portfolio.t;
  activePortfolioId : option string
}.

(** [portfolios: [], activePortfolioId: null] *)
Definition initialState : PortfolioState := mkState [] None.

Definition createPortfolio (name : string) : M PortfolioState string :=
  let* portfolioId := generateId "portfolio" in
  let* createdAt := Date_now in
  let newPortfolio :=
    Portfolio.mk portfolioId name (num 100000) (num 100000) (num 100000)
                 [] [] createdAt in
  set (λ state,
    mkState (portfolios state ++ [newPortfolio])
            (match truthy_string (activePortfolioId state) with
             | Some a => Some a
             | None => Some portfolioId
             end)) ;;
  ret portfolioId.

Definition deletePortfolio (portfolioId : string) : M PortfolioState unit :=
  let* state := get in
  let remainingPortfolios :=
    filter (λ p, Portfolio.id p ≠ portfolioId) (portfolios state) in
  if decide (length remainingPortfolios = 0%nat) then
    (* this was the last portfolio: create a default one *)
    let* defaultPortfolioId := generateId "portfolio" in
    let* createdAt := Date_now in
    let defaultPortfolio :=
      Portfolio.mk defaultPortfolioId "Default Portfolio"
                   (num 100000) (num 100000) (num 100000) [] [] createdAt in
    set (λ _, mkState [defaultPortfolio] (Some defaultPortfolioId))
  else
    set (λ _,
      mkState remainingPortfolios
              (if decide (activePortfolioId state = Some portfolioId)
               then truthy_string (Portfolio.id <$> head remainingPortfolios)
               else activePortfolioId state)).

Definition setActivePortfolio (portfolioId : string) : M PortfolioState unit :=
  let* state := get in
  let portfolioExists :=
    existsb (λ p, bool_decide (Portfolio.id p = portfolioId)) (portfolios state) in
  if portfolioExists
  then set (λ s, mkState (portfolios s) (Some portfolioId))
  else ret tt.

(** [portfolios.find(p => p.id === activePortfolioId) || null] *)
Definition getActivePortfolio (state : PortfolioState) : option Portfolio.t :=
  snd <$> list_find (λ p, Some (Portfolio.id p) = activePortfolioId state)
                    (portfolios state).

Definition resetPortfolios : M PortfolioState unit :=
  set (λ _, mkState [] None).

(** The tail shared by both branches of [executeTrade]:
    [set(state => ({ portfolios: state.portfolios.map((p, index) =>
       index === portfolioIndex ? portfolio : p) })); return true]. *)
Definition updateState (portfolioIndex : nat) (portfolio : Portfolio.t)
  : M PortfolioState bool :=
  set (λ state,
    mkState (imap (λ index p,
               if decide (index = portfolioIndex) then portfolio else p)
               (portfolios state))
            (activePortfolioId state)) ;;
  ret true.

Definition executeTrade (trade : Trade.t) : M PortfolioState bool :=
  let* state := get in
  match truthy_string (activePortfolioId state) with
  | None => ret false
  | Some activePortfolioId =>
    match list_find (λ p, Portfolio.id p = activePortfolioId) (portfolios state) with
    | None => ret false
    | Some (portfolioIndex, portfolio) =>
      let totalCost := Trade.quantity trade * Trade.price trade in
      match Trade.type trade with
      | buy =>
        (* check if enough balance for purchase *)
        if decide (Portfolio.balance portfolio < totalCost) then
          ret false (* Insufficient funds *)
        else
          let* txId := generateId "tx" in
          let* timestamp := Date_now in
          let transaction :=
            Transaction.mk txId (Trade.symbol trade) buy
              (Trade.quantity trade) (Trade.price trade) timestamp
              activePortfolioId in
          let* positions :=
            match list_find (λ p, Position.symbol p = Trade.symbol trade)
                            (Portfolio.positions portfolio) with
            | Some (existingPositionIndex, existingPosition) =>
              (* update existing position (average price) *)
              let totalQuantity :=
                Position.quantity existingPosition + Trade.quantity trade in
              let newAvgPrice :=
                (Position.quantity existingPosition
                   * Position.entryPrice existingPosition + totalCost)
                / totalQuantity in
              ret (<[existingPositionIndex :=
                      Position.mk (Position.id existingPosition)
                        (Position.symbol existingPosition)
                        totalQuantity newAvgPrice
                        (Position.entryTime existingPosition)
                        (Position.type existingPosition)]>
                   (Portfolio.positions portfolio))
            | None =>
              (* create new position *)
              let* posId := generateId "pos" in
              let* entryTime := Date_now in
              ret (Portfolio.positions portfolio ++
                   [Position.mk posId (Trade.symbol trade)
                      (Trade.quantity trade) (Trade.price trade)
                      entryTime long])
            end in
          (* update balance and add transaction *)
          let balance := Portfolio.balance portfolio - totalCost in
          updateState portfolioIndex
            (Portfolio.mk (Portfolio.id portfolio) (Portfolio.name portfolio)
               balance balance (Portfolio.initialBalance portfolio)
               positions
               (Portfolio.transactions portfolio ++ [transaction])
               (Portfolio.createdAt portfolio))
      | sell =>
        (* find position to sell from *)
        match list_find (λ p, Position.symbol p = Trade.symbol trade)
                        (Portfolio.positions portfolio) with
        | None => ret false (* No position to sell *)
        | Some (positionIndex, position) =>
          if decide (Position.quantity position < Trade.quantity trade) then
            ret false (* Insufficient quantity *)
          else
            let* txId := generateId "tx" in
            let* timestamp := Date_now in
            let transaction :=
              Transaction.mk txId (Trade.symbol trade) sell
                (Trade.quantity trade) (Trade.price trade) timestamp
                activePortfolioId in
            let positions :=
              if decide (Position.quantity position = Trade.quantity trade)
              then (* close position completely: splice(positionIndex, 1) *)
                delete positionIndex (Portfolio.positions portfolio)
              else (* reduce position quantity *)
                alter (λ p, Position.mk (Position.id p) (Position.symbol p)
                              (Position.quantity p - Trade.quantity trade)
                              (Position.entryPrice p) (Position.entryTime p)
                              (Position.type p))
                      positionIndex (Portfolio.positions portfolio) in
            (* update balance and add transaction *)
            let balance := Portfolio.balance portfolio + totalCost in
            updateState portfolioIndex
              (Portfolio.mk (Portfolio.id portfolio) (Portfolio.name portfolio)
                 balance balance (Portfolio.initialBalance portfolio)
                 positions
                 (Portfolio.transactions portfolio ++ [transaction])
                 (Portfolio.createdAt portfolio))
        end
      end
    end
  end.

Definition closePosition (positionId : string) (currentPrice : number)
  : M PortfolioState bool :=
  let* state := get in
  match truthy_string (activePortfolioId state) with
  | None => ret false
  | Some activePortfolioId =>
    match list_find (λ p, Portfolio.id p = activePortfolioId) (portfolios state) with
    | None => ret false
    | Some (_, portfolio) =>
      match list_find (λ p, Position.id p = positionId)
                      (Portfolio.positions portfolio) with
      | None => ret false
      | Some (_, position) =>
        (* execute sell trade to close position *)
        executeTrade (Trade.mk (Position.symbol position) sell
                        (Position.quantity position) currentPrice)
      end
    end
  end.

Definition getPortfolioValue (state : PortfolioState) (portfolioId : string)
    (currentPrices : gmap string number) : number :=
  match snd <$> list_find (λ p, Portfolio.id p = portfolioId) (portfolios state) with
  | None => 0
  | Some portfolio =>
    (* start with the cash balance, add the value of all positions *)
    foldl (λ totalValue position,
             let currentPrice :=
               number_or (currentPrices !! Position.symbol position)
                         (Position.entryPrice position) in
             totalValue + Position.quantity position * currentPrice)
          (Portfolio.balance portfolio) (Portfolio.positions portfolio)
  end.

Definition getTotalPnL (state : PortfolioState) (portfolioId : string)
    (currentPrices : gmap string number) : number :=
  match snd <$> list_find (λ p, Portfolio.id p = portfolioId) (portfolios state) with
  | None => 0
  | Some portfolio =>
    let currentValue := getPortfolioValue state portfolioId currentPrices in
    currentValue - Portfolio.initialBalance portfolio
  end.

(** Alias of [getPortfolioValue], kept for compatibility. *)
Definition calculatePortfolioValue (state : PortfolioState)
    (portfolioId : string) (currentPrices : gmap string number) : number :=
  getPortfolioValue state portfolioId currentPrices.

Definition updatePortfolioBalance (portfolioId : string) (amount : number)
  : M PortfolioState unit :=
  set (λ state,
    mkState
      ((λ p,
          if decide (Portfolio.id p = portfolioId) then
            Portfolio.mk (Portfolio.id p) (Portfolio.name p)
              (Portfolio.balance p + amount) (Portfolio.balance p + amount)
              (Portfolio.initialBalance p) (Portfolio.positions p)
              (Portfolio.transactions p) (Portfolio.createdAt p)
          else p) <$> portfolios state)
      (activePortfolioId state)).

(** [portfolios.find(p => p.id === portfolioId) || null] *)
Definition getPortfolio (state : PortfolioState) (portfolioId : string)
  : option Portfolio.t :=
  snd <$> list_find (λ p, Portfolio.id p = portfolioId) (portfolios state).

End PortfolioStore.

(** ** The position store (first store of src/state/positionStore.ts) *)

Module PositionStore.
Import Trading.

Record PositionStoreState := mkState {
  positions : list Position.t;
  transactions : list Transaction.t;
  orders : list Order.t
}.

Definition initialState : PositionStoreState := mkState [] [] [].

(** [Omit<Position, 'id' | 'createdAt' | 'updatedAt'>] *)
Module PositionData.
Record t := mk {
  portfolioId : string;
  symbol : string;
  side : OrderSide;
  quantity : number;
  entryPrice : number;
  currentPrice : number;
  unrealizedPnL : option number;
  unrealizedPnLPercent : number
}.
End PositionData.

(** [Omit<Transaction, 'id'>] *)
Module TransactionData.
Record t := mk {
  portfolioId : string;
  symbol : string;
  side : OrderSide;
  quantity : number;
  price : number;
  fee : number;
  total : number;
  timestamp : Z;
  orderId : option string
}.
End TransactionData.

(** [Partial<Position>], with the fields that the store passes to
    [updatePosition]; an absent field is [None]. *)
Module PositionUpdates.
Record t := mk {
  quantity : option number;
  entryPrice : option number;
  currentPrice : option number
}.
End PositionUpdates.

(** The fields of a position that [calculatePositionPnL] reads. The record
    that [executeTrade] builds for a new position,
    [{ entryPrice: price, side } as Position], has no quantity. *)
Module PnLInput.
Record t := mk {
  side : OrderSide;
  entryPrice : number;
  quantity : option number
}.
End PnLInput.

Definition pnlInput (position : Position.t) : PnLInput.t :=
  PnLInput.mk (Position.side position) (Position.entryPrice position)
              (Some (Position.quantity position)).

Module TradeResult.
Record t := mk {
  success : bool;
  positionId : option string;
  transactionId : option string;
  error : option string
}.
End TradeResult.

(** Returns [(unrealizedPnL, unrealizedPnLPercent)]; a product with an
    absent quantity is NaN ([None]). *)
Definition calculatePositionPnL (position : PnLInput.t) (currentPrice : number)
  : option number * number :=
  let multiplier : number :=
    if decide (PnLInput.side position = buy) then 1 else - 1 in
  let priceChange := currentPrice - PnLInput.entryPrice position in
  let unrealizedPnL :=
    (λ quantity, multiplier * priceChange * quantity) <$> PnLInput.quantity position in
  let unrealizedPnLPercent :=
    if decide (0 < PnLInput.entryPrice position)
    then priceChange / PnLInput.entryPrice position * num 100 * multiplier
    else 0 in
  (unrealizedPnL, unrealizedPnLPercent).

(** [array.map] with a callback that reads the host. *)
Fixpoint mapM {S A B} (f : A → M S B) (l : list A) : M S (list B) :=
  match l with
  | [] => ret []
  | x :: l' =>
    let* y := f x in
    let* ys := mapM f l' in
    ret (y :: ys)
  end.

Definition addPosition (positionData : PositionData.t)
  : M PositionStoreState string :=
  let* now := Date_now in
  let* id := generateId "pos" in
  let newPosition :=
    Position.mk id
      (PositionData.portfolioId positionData)
      (PositionData.symbol positionData)
      (PositionData.side positionData)
      (PositionData.quantity positionData)
      (PositionData.entryPrice positionData)
      (PositionData.currentPrice positionData)
      (PositionData.unrealizedPnL positionData)
      (PositionData.unrealizedPnLPercent positionData)
      now now in
  set (λ state,
    mkState (positions state ++ [newPosition]) (transactions state) (orders state)) ;;
  ret id.

(** [{ ...position, ...updates, updatedAt }] *)
Definition applyUpdates (position : Position.t) (updates : PositionUpdates.t)
    (updatedAt : Z) : Position.t :=
  Position.mk (Position.id position)
    (Position.portfolioId position)
    (Position.symbol position)
    (Position.side position)
    (default (Position.quantity position) (PositionUpdates.quantity updates))
    (default (Position.entryPrice position) (PositionUpdates.entryPrice updates))
    (default (Position.currentPrice position) (PositionUpdates.currentPrice updates))
    (Position.unrealizedPnL position)
    (Position.unrealizedPnLPercent position)
    (Position.createdAt position)
    updatedAt.

Definition updatePosition (id : string) (updates : PositionUpdates.t)
  : M PositionStoreState unit :=
  let* state := get in
  let* positions' :=
    mapM (λ position,
            if decide (Position.id position = id)
            then let* now := Date_now in ret (applyUpdates position updates now)
            else ret position)
         (positions state) in
  set (λ state, mkState positions' (transactions state) (orders state)).

Definition closePosition (id : string) (closePrice : number)
  : M PositionStoreState unit :=
  let* state := get in
  match snd <$> list_find (λ p, Position.id p = id) (positions state) with
  | None => ret tt
  | Some position =>
    (* create closing transaction *)
    let fee := Position.quantity position * closePrice * DEFAULT_TRADING_FEE_PERCENT in
    let netAmount := Position.quantity position * closePrice - fee in
    let* txId := generateId "tx" in
    let* timestamp := Date_now in
    let closingTransaction :=
      Transaction.mk txId
        (Position.portfolioId position)
        (Position.symbol position)
        (if decide (Position.side position = buy) then sell else buy)
        (Position.quantity position)
        closePrice fee netAmount timestamp None in
    set (λ state,
      mkState (filter (λ p, Position.id p ≠ id) (positions state))
              (transactions state ++ [closingTransaction])
              (orders state))
  end.

Definition addTransaction (transactionData : TransactionData.t)
  : M PositionStoreState string :=
  let* id := generateId "tx" in
  let newTransaction :=
    Transaction.mk id
      (TransactionData.portfolioId transactionData)
      (TransactionData.symbol transactionData)
      (TransactionData.side transactionData)
      (TransactionData.quantity transactionData)
      (TransactionData.price transactionData)
      (TransactionData.fee transactionData)
      (TransactionData.total transactionData)
      (TransactionData.timestamp transactionData)
      (TransactionData.orderId transactionData) in
  set (λ state,
    mkState (positions state) (transactions state ++ [newTransaction]) (orders state)) ;;
  ret id.

(** The body of the [try] block. None of the actions called throws, so the
    [catch] branch, the only one that reports [success: false], is never
    entered. *)
Definition executeTrade (portfolioId symbol : string) (side : OrderSide)
    (quantity price : number) (type : OrderType)
  : M PositionStoreState TradeResult.t :=
  let* state := get in
  let positions := positions state in
  (* calculate fees and total cost *)
  let fee := quantity * price * DEFAULT_TRADING_FEE_PERCENT in
  let grossAmount := quantity * price in
  let netAmount :=
    if decide (side = buy) then grossAmount + fee else grossAmount - fee in
  (* create transaction record *)
  let* timestamp := Date_now in
  let* transactionId :=
    addTransaction
      (TransactionData.mk portfolioId symbol side quantity price fee
                          netAmount timestamp None) in
  (* check if we have an existing position for this symbol *)
  let existingPosition :=
    snd <$> list_find (λ p, Position.portfolioId p = portfolioId
                            ∧ Position.symbol p = symbol) positions in
  let* positionId :=
    match existingPosition with
    | Some existingPosition =>
      if decide (Position.side existingPosition = side) then
        (* same side: add to position *)
        let newQuantity := Position.quantity existingPosition + quantity in
        let newEntryPrice :=
          (Position.entryPrice existingPosition
             * Position.quantity existingPosition + price * quantity)
          / newQuantity in
        updatePosition (Position.id existingPosition)
          (PositionUpdates.mk (Some newQuantity) (Some newEntryPrice) (Some price)) ;;
        ret (Some (Position.id existingPosition))
      else
        (* opposite side: reduce or close position *)
        if decide (Position.quantity existingPosition ≤ quantity) then
          (* close existing position *)
          closePosition (Position.id existingPosition) price ;;
          (* if quantity is greater, create new position with remaining *)
          if decide (Position.quantity existingPosition < quantity) then
            let remainingQuantity := quantity - Position.quantity existingPosition in
            let '(unrealizedPnL, unrealizedPnLPercent) :=
              calculatePositionPnL
                (PnLInput.mk (Position.side existingPosition) price
                             (Some (Position.quantity existingPosition)))
                price in
            let* id :=
              addPosition
                (PositionData.mk portfolioId symbol side remainingQuantity
                   price price unrealizedPnL unrealizedPnLPercent) in
            ret (Some id)
          else ret None
        else
          (* reduce existing position *)
          updatePosition (Position.id existingPosition)
            (PositionUpdates.mk
               (Some (Position.quantity existingPosition - quantity))
               None (Some price)) ;;
          ret (Some (Position.id existingPosition))
    | None =>
      (* create new position *)
      let '(unrealizedPnL, unrealizedPnLPercent) :=
        calculatePositionPnL (PnLInput.mk side price None) price in
      let* id :=
        addPosition
          (PositionData.mk portfolioId symbol side quantity price price
                           unrealizedPnL unrealizedPnLPercent) in
      ret (Some id)
    end in
  ret (TradeResult.mk true positionId (Some transactionId) None).

Definition getPositionsByPortfolio (state : PositionStoreState)
    (portfolioId : string) : list Position.t :=
  filter (λ p, Position.portfolioId p = portfolioId) (positions state).

Definition getPositionBySymbol (state : PositionStoreState)
    (portfolioId symbol : string) : option Position.t :=
  snd <$> list_find (λ p, Position.symbol p = symbol)
                    (getPositionsByPortfolio state portfolioId).

Definition updatePositionPrices (priceUpdates : gmap string number)
  : M PositionStoreState unit :=
  let* state := get in
  let* positions' :=
    mapM (λ position,
            match priceUpdates !! Position.symbol position with
            | None => ret position
            | Some currentPrice =>
              if decide (currentPrice = 0) then ret position
              else
                let '(unrealizedPnL, unrealizedPnLPercent) :=
                  calculatePositionPnL (pnlInput position) currentPrice in
                let* now := Date_now in
                ret (Position.mk (Position.id position)
                       (Position.portfolioId position)
                       (Position.symbol position) (Position.side position)
                       (Position.quantity position)
                       (Position.entryPrice position)
                       currentPrice unrealizedPnL unrealizedPnLPercent
                       (Position.createdAt position) now)
            end)
         (positions state) in
  set (λ state, mkState positions' (transactions state) (orders state)).

(** [Omit<Order, 'id' | 'createdAt' | 'status'>] *)
Module OrderData.
Record t := mk {
  portfolioId : string;
  symbol : string;
  side : OrderSide;
  type : OrderType;
  quantity : number;
  price : option number;
  filledAt : option Z;
  filledPrice : option number
}.
End OrderData.

(** [Partial<Order>], with the fields that the store and its tests pass to
    [updateOrder]; an absent field is [None]. *)
Module OrderUpdates.
Record t := mk {
  price : option number;
  status : option OrderStatus;
  filledAt : option Z;
  filledPrice : option number
}.
End OrderUpdates.

Definition addOrder (orderData : OrderData.t) : M PositionStoreState string :=
  let* id := generateId "order" in
  let* createdAt := Date_now in
  let newOrder :=
    Order.mk id
      (OrderData.portfolioId orderData) (OrderData.symbol orderData)
      (OrderData.side orderData) (OrderData.type orderData)
      (OrderData.quantity orderData) (OrderData.price orderData)
      pending createdAt
      (OrderData.filledAt orderData) (OrderData.filledPrice orderData) in
  set (λ state,
    mkState (positions state) (transactions state) (orders state ++ [newOrder])) ;;
  ret id.

(** [{ ...order, ...updates }] *)
Definition applyOrderUpdates (order : Order.t) (updates : OrderUpdates.t) : Order.t :=
  Order.mk (Order.id order) (Order.portfolioId order) (Order.symbol order)
    (Order.side order) (Order.type order) (Order.quantity order)
    (match OrderUpdates.price updates with
     | Some price => Some price
     | None => Order.price order
     end)
    (default (Order.status order) (OrderUpdates.status updates))
    (Order.createdAt order)
    (match OrderUpdates.filledAt updates with
     | Some filledAt => Some filledAt
     | None => Order.filledAt order
     end)
    (match OrderUpdates.filledPrice updates with
     | Some filledPrice => Some filledPrice
     | None => Order.filledPrice order
     end).

Definition updateOrder (id : string) (updates : OrderUpdates.t)
  : M PositionStoreState unit :=
  set (λ state,
    mkState (positions state) (transactions state)
      ((λ order, if decide (Order.id order = id)
                 then applyOrderUpdates order updates else order)
         <$> orders state)).

Definition fillOrder (id : string) (fillPrice : number)
  : M PositionStoreState unit :=
  let* state := get in
  match snd <$> list_find (λ o, Order.id o = id) (orders state) with
  | None => ret tt
  | Some order =>
    (* update order status *)
    let* filledAt := Date_now in
    updateOrder id (OrderUpdates.mk None (Some filled) (Some filledAt)
                                    (Some fillPrice)) ;;
    (* execute the trade *)
    executeTrade (Order.portfolioId order) (Order.symbol order)
      (Order.side order) (Order.quantity order) fillPrice (Order.type order) ;;
    ret tt
  end.

Definition cancelOrder (id : string) : M PositionStoreState unit :=
  updateOrder id (OrderUpdates.mk None (Some cancelled) None None).

(** Most recent first: [.sort((a, b) => b.timestamp - a.timestamp)] *)
Definition getTransactionsByPortfolio (state : PositionStoreState)
    (portfolioId : string) : list Transaction.t :=
  sortBy (λ a b, bool_decide (Transaction.timestamp b ≤ Transaction.timestamp a)%Z)
         (filter (λ t, Transaction.portfolioId t = portfolioId) (transactions state)).

Definition getOrdersByPortfolio (state : PositionStoreState)
    (portfolioId : string) : list Order.t :=
  sortBy (λ a b, bool_decide (Order.createdAt b ≤ Order.createdAt a)%Z)
         (filter (λ o, Order.portfolioId o = portfolioId) (orders state)).

(** [clearPositions(portfolioId?)]: an absent id and the empty string are
    both falsy and clear every position. *)
Definition clearPositions (portfolioId : option string)
  : M PositionStoreState unit :=
  match truthy_string portfolioId with
  | Some portfolioId =>
    set (λ state,
      mkState (filter (λ p, Position.portfolioId p ≠ portfolioId) (positions state))
              (transactions state) (orders state))
  | None =>
    set (λ state, mkState [] (transactions state) (orders state))
  end.

Definition clearTransactions (portfolioId : option string)
  : M PositionStoreState unit :=
  match truthy_string portfolioId with
  | Some portfolioId =>
    set (λ state,
      mkState (positions state)
              (filter (λ t, Transaction.portfolioId t ≠ portfolioId)
                      (transactions state))
              (orders state))
  | None =>
    set (λ state, mkState (positions state) [] (orders state))
  end.

Definition resetAllData : M PositionStoreState unit :=
  set (λ _, mkState [] [] []).

End PositionStore.

(** ** The analytics module *)

Module Analytics.
Import Trading.

Definition calculatePositionValue (quantity currentPrice : number) : number :=
  quantity * currentPrice.

Definition calculatePortfolioValue (cash : number) (positions : list Position.t)
    (currentPrices : gmap string number) : number :=
  let positionsValue :=
    foldl (λ total position,
             let currentPrice :=
               number_or (currentPrices !! Position.symbol position)
                         (Position.currentPrice position) in
             total + calculatePositionValue (Position.quantity position) currentPrice)
          0 positions in
  cash + positionsValue.

Module PnL.
Record t := mk { pnl : number; pnlPercent : number }.
End PnL.

Definition calculateUnrealizedPnL (entryPrice currentPrice quantity : number)
    (side : OrderSide) : PnL.t :=
  let multiplier : number := if decide (side = buy) then 1 else - 1 in
  let priceChange := currentPrice - entryPrice in
  let pnl := multiplier * priceChange * quantity in
  let pnlPercent :=
    if decide (0 < entryPrice)
    then priceChange / entryPrice * num 100 * multiplier else 0 in
  PnL.mk pnl pnlPercent.

Module RealizedPnL.
Record t := mk { pnl : number; pnlPercent : number; fees : number }.
End RealizedPnL.

(** [includesFees] defaults to [true] in the source. *)
Definition calculateRealizedPnL (entryPrice exitPrice quantity : number)
    (side : OrderSide) (includesFees : bool) : RealizedPnL.t :=
  let multiplier : number := if decide (side = buy) then 1 else - 1 in
  let priceChange := exitPrice - entryPrice in
  let grossPnL := multiplier * priceChange * quantity in
  (* fees: entry + exit *)
  let fees :=
    if includesFees
    then entryPrice * quantity * DEFAULT_TRADING_FEE_PERCENT
         + exitPrice * quantity * DEFAULT_TRADING_FEE_PERCENT
    else 0 in
  let netPnL := grossPnL - fees in
  let pnlPercent :=
    if decide (0 < entryPrice)
    then netPnL / (entryPrice * quantity) * num 100 else 0 in
  RealizedPnL.mk netPnL pnlPercent fees.

(** [feePercent] defaults to [DEFAULT_TRADING_FEE_PERCENT] in the source. *)
Definition calculateBreakEvenPrice (entryPrice : number) (side : OrderSide)
    (feePercent : number) : number :=
  let feeMultiplier :=
    if decide (side = buy)
    then 1 + feePercent * (1 + 1) else 1 - feePercent * (1 + 1) in
  entryPrice * feeMultiplier.

Module Allocation.
Record t := mk { symbol : string; value : number; percentage : number }.
End Allocation.

Definition calculatePortfolioAllocation (positions : list Position.t)
    (currentPrices : gmap string number) : list Allocation.t :=
  let totalValue :=
    foldl (λ total position,
             let currentPrice :=
               number_or (currentPrices !! Position.symbol position)
                         (Position.currentPrice position) in
             total + calculatePositionValue (Position.quantity position) currentPrice)
          0 positions in
  if decide (totalValue = 0) then []
  else
    (λ position,
       let currentPrice :=
         number_or (currentPrices !! Position.symbol position)
                   (Position.currentPrice position) in
       let value := calculatePositionValue (Position.quantity position) currentPrice in
       let percentage := value / totalValue * num 100 in
       Allocation.mk (Position.symbol position) value percentage) <$> positions.

Module RiskMetrics.
Record t := mk {
  totalExposure : number;
  maxPositionRisk : number;
  diversificationScore : number;
  leverageRatio : number
}.
End RiskMetrics.

Definition calculateRiskMetrics (positions : list Position.t)
    (currentPrices : gmap string number) (portfolio : Portfolio.t)
  : RiskMetrics.t :=
  let exposure position :=
    let currentPrice :=
      number_or (currentPrices !! Position.symbol position)
                (Position.currentPrice position) in
    Math_abs (calculatePositionValue (Position.quantity position) currentPrice) in
  match positions with
  | [] => RiskMetrics.mk 0 0 1 0
  | first :: rest =>
    (* total exposure: sum of all position values *)
    let totalExposure := foldl (λ total position, total + exposure position) 0 positions in
    (* max single position risk: Math.max(...positionValues) *)
    let maxPositionValue := foldl Math_max (exposure first) (exposure <$> rest) in
    let maxPositionRisk :=
      if decide (0 < totalExposure)
      then maxPositionValue / totalExposure * num 100 else 0 in
    (* diversification score: 1 / number of positions, capped at 1 *)
    let diversificationScore :=
      Math_min 1 (1 / num (Z.of_nat (length positions))) in
    (* leverage ratio: total exposure / account equity *)
    let leverageRatio :=
      if decide (0 < Portfolio.currentBalance portfolio)
      then totalExposure / Portfolio.currentBalance portfolio else 0 in
    RiskMetrics.mk totalExposure maxPositionRisk diversificationScore leverageRatio
  end.

Module Drawdown.
Record t := mk {
  maxDrawdown : number;
  maxDrawdownPercent : number;
  peakValue : number;
  troughValue : number
}.
End Drawdown.

(** The state of the loop of [calculateMaxDrawdown]: the result so far and
    the running peak. *)
Definition drawdownStep (acc : Drawdown.t * number) (value : number)
  : Drawdown.t * number :=
  let '(best, currentPeak) := acc in
  let currentPeak := if decide (currentPeak < value) then value else currentPeak in
  let drawdown := currentPeak - value in
  let drawdownPercent :=
    if decide (0 < currentPeak) then drawdown / currentPeak * num 100 else 0 in
  if decide (Drawdown.maxDrawdown best < drawdown)
  then (Drawdown.mk drawdown drawdownPercent currentPeak value, currentPeak)
  else (best, currentPeak).

Definition calculateMaxDrawdown (portfolioValues : list number) : Drawdown.t :=
  match portfolioValues with
  | [] => Drawdown.mk 0 0 0 0
  | first :: _ =>
    (foldl drawdownStep (Drawdown.mk 0 0 first first, first) portfolioValues).1
  end.

Module PositionSize.
Record t := mk {
  maxQuantity : number;
  riskAmount : number;
  stopLossDistance : number
}.
End PositionSize.

(** [riskPercentage] defaults to 1 in the source. *)
Definition calculatePositionSize (accountBalance entryPrice stopLossPrice
    riskPercentage : number) : PositionSize.t :=
  let riskAmount := accountBalance * (riskPercentage / num 100) in
  let stopLossDistance := Math_abs (entryPrice - stopLossPrice) in
  let maxQuantity :=
    if decide (0 < stopLossDistance) then riskAmount / stopLossDistance else 0 in
  PositionSize.mk maxQuantity riskAmount stopLossDistance.

Module Slippage.
Record t := mk {
  isAcceptable : bool;
  slippagePercent : number;
  slippageAmount : number
}.
End Slippage.

(** [maxSlippagePercent] defaults to 0.5 in the source. *)
Definition checkSlippage (expectedPrice actualPrice maxSlippagePercent : number)
  : Slippage.t :=
  let slippageAmount := Math_abs (actualPrice - expectedPrice) in
  let slippagePercent :=
    if decide (0 < expectedPrice)
    then slippageAmount / expectedPrice * num 100 else 0 in
  let isAcceptable := bool_decide (slippagePercent ≤ maxSlippagePercent) in
  Slippage.mk isAcceptable slippagePercent slippageAmount.

End Analytics.

(** * Vocabulary of the properties *)

(** The store and the result that an action leaves. *)
Definition exec {S A} (m : M S A) (s : S) (h : Host) : S := (m s h).1.2.
Definition result {S A} (m : M S A) (s : S) (h : Host) : A := (m s h).1.1.
Definition hostAfter {S A} (m : M S A) (s : S) (h : Host) : Host := (m s h).2.

Module Ledger.
Import PortfolioStore.

(** [portfolio] is the portfolio that [executeTrade] works on: the active
    id is set and [portfolio] is the first one carrying it, at index
    [portfolioIndex]. *)
Definition active (state : PortfolioState) (portfolioIndex : nat)
    (portfolio : Portfolio.t) : Prop :=
  truthy_string (activePortfolioId state) = Some (Portfolio.id portfolio) ∧
  list_find (λ p, Portfolio.id p = Portfolio.id portfolio) (portfolios state)
    = Some (portfolioIndex, portfolio).

(** The open position that a trade in [symbol] meets. *)
Definition holding (portfolio : Portfolio.t) (symbol : string)
  : option (nat * Position.t) :=
  list_find (λ p, Position.symbol p = symbol) (Portfolio.positions portfolio).

(** A freshly created portfolio. *)
Definition fresh (portfolio : Portfolio.t) : Prop :=
  Portfolio.balance portfolio = Portfolio.initialBalance portfolio ∧
  Portfolio.positions portfolio = [] ∧
  Portfolio.transactions portfolio = [].



(** The P&L that a trade realizes on [portfolio]: a sell realizes the
    distance of its price from the entry price of the position it sells
    from; a buy realizes nothing. *)
Definition realizedPnL (portfolio : Portfolio.t) (trade : Trade.t) : number :=
  match Trade.type trade with
  | buy => 0
  | sell =>
    match holding portfolio (Trade.symbol trade) with
    | Some (_, position) =>
      Trade.quantity trade * (Trade.price trade - Position.entryPrice position)
    | None => 0
    end
  end.

(** What a fill leaves of [portfolio]: the new cash in both balance
    fields, the new positions, one more transaction. *)
Definition settle (portfolio : Portfolio.t) (balance : number)
    (positions : list Position.t) (transaction : Transaction.t) : Portfolio.t :=
  Portfolio.mk (Portfolio.id portfolio) (Portfolio.name portfolio)
    balance balance (Portfolio.initialBalance portfolio) positions
    (Portfolio.transactions portfolio ++ [transaction])
    (Portfolio.createdAt portfolio).

(** The store with the portfolio at [portfolioIndex] replaced. *)
Definition replacePortfolio (state : PortfolioState) (portfolioIndex : nat)
    (portfolio : Portfolio.t) : PortfolioState :=
  mkState (<[portfolioIndex:=portfolio]> (portfolios state))
          (activePortfolioId state).

(** [transaction] records the fill of [trade] on [portfolio]. *)
Definition records (transaction : Transaction.t) (trade : Trade.t)
    (portfolio : Portfolio.t) : Prop :=
  Transaction.symbol transaction = Trade.symbol trade ∧
  Transaction.type transaction = Trade.type trade ∧
  Transaction.quantity transaction = Trade.quantity trade ∧
  Transaction.price transaction = Trade.price trade ∧
  Transaction.portfolioId transaction = Portfolio.id portfolio.

(** The price at which a position is valued: the price of the map when
    it has one that is not zero, else the entry price. *)
Definition valuationPrice (prices : gmap string number)
    (position : Position.t) : number :=
  number_or (prices !! Position.symbol position) (Position.entryPrice position).

(** Cash plus Σ quantity × valuation price over the open positions. *)
Definition marketValue (portfolio : Portfolio.t)
    (prices : gmap string number) : number :=
  Portfolio.balance portfolio +
  Qcsum ((λ p, Position.quantity p * valuationPrice prices p)
           <$> Portfolio.positions portfolio).

(** The value as the specification words it: the price of the map, the
    entry price only when the map has no price for the symbol. *)
Definition statedValue (portfolio : Portfolio.t)
    (prices : gmap string number) : number :=
  Portfolio.balance portfolio +
  Qcsum ((λ p, Position.quantity p *
               default (Position.entryPrice p) (prices !! Position.symbol p))
           <$> Portfolio.positions portfolio).

(** A store after deletion is well formed: ids are not empty and the
    active id is the id of a portfolio of the store. *)
Definition initialized (state : PortfolioState) : Prop :=
  Forall (λ p, Portfolio.id p ≠ "") (portfolios state) ∧
  Exists (λ p, activePortfolioId state = Some (Portfolio.id p)) (portfolios state).


(** The stores reached from [state0] and [host0] by successful trades of
    positive quantity and price on the active portfolio, with the P&L that
    the trades realized in total. *)
Inductive traded (state0 : PortfolioState) (host0 : Host)
  : PortfolioState → Host → number → Prop :=
| traded_start : traded state0 host0 state0 host0 0
| traded_step state h realized portfolioIndex portfolio trade :
    traded state0 host0 state h realized →
    active state portfolioIndex portfolio →
    0 < Trade.quantity trade →
    0 < Trade.price trade →
    result (executeTrade trade) state h = true →
    traded state0 host0
      (exec (executeTrade trade) state h)
      (hostAfter (executeTrade trade) state h)
      (realized + realizedPnL portfolio trade).


End Ledger.

Module Book.
Import Trading PositionStore.

(** The position that a trade of the position store meets: the first one
    of the portfolio in the symbol. *)
Definition existing (state : PositionStoreState) (portfolioId symbol : string)
  : option (nat * Position.t) :=
  list_find (λ p, Position.portfolioId p = portfolioId ∧ Position.symbol p = symbol)
            (positions state).

(** [transaction] records a fill with the fee of the position store. *)
Definition fill (transaction : Transaction.t) (portfolioId symbol : string)
    (side : OrderSide) (quantity price : number) : Prop :=
  Transaction.portfolioId transaction = portfolioId ∧
  Transaction.symbol transaction = symbol ∧
  Transaction.side transaction = side ∧
  Transaction.quantity transaction = quantity ∧
  Transaction.price transaction = price ∧
  Transaction.fee transaction = quantity * price * DEFAULT_TRADING_FEE_PERCENT ∧
  Transaction.total transaction =
    (if decide (side = buy)
     then quantity * price + Transaction.fee transaction
     else quantity * price - Transaction.fee transaction).

(** The key under which a trade of the position store looks a position
    up: its portfolio and its symbol. *)
Definition slot (position : Position.t) : string * string :=
  (Position.portfolioId position, Position.symbol position).

(** The number of closing transactions that a trade adds to its own: one
    when it meets a position of the other side that it covers. *)
Definition closings (state : PositionStoreState) (portfolioId symbol : string)
    (side : OrderSide) (quantity : number) : nat :=
  match existing state portfolioId symbol with
  | Some (_, position) =>
    if decide (Position.side position ≠ side ∧ Position.quantity position ≤ quantity)
    then 1 else 0
  | None => 0
  end.

End Book.

(** * Concrete stores and trades *)

Module Examples.

(** A host whose clock advances by one per call. *)
Definition host0 : Host :=
  mkHost (λ n, 1700000000000 + Z.of_nat n)%Z (λ n, "r" +:+ pretty n) 0.

Module Portfolios.
Import PortfolioStore.

(** A portfolio as [createPortfolio] makes it. *)
Definition main : Portfolio.t :=
  Portfolio.mk "portfolio_1" "Main Portfolio"
    (num 100000) (num 100000) (num 100000) [] [] 0.

Definition mainStore : PortfolioState := mkState [main] (Some "portfolio_1").

Definition btc : Position.t :=
  Position.mk "pos_1" "BTC" (num 1) (num 50000) 1 long.

(** [main] after buying 1 BTC at 50000. *)
Definition holder : Portfolio.t :=
  Portfolio.mk "portfolio_1" "Main Portfolio"
    (num 50000) (num 50000) (num 100000) [btc]
    [Transaction.mk "tx_1" "BTC" buy (num 1) (num 50000) 1 "portfolio_1"] 0.

Definition holderStore : PortfolioState := mkState [holder] (Some "portfolio_1").

(** A second portfolio next to [main]; [main] is active. *)
Definition second : Portfolio.t :=
  Portfolio.mk "portfolio_2" "Second"
    (num 100000) (num 100000) (num 100000) [] [] 5.

Definition twoStore : PortfolioState :=
  mkState [main; second] (Some "portfolio_1").

Definition buyBTC (quantity price : Z) : Trade.t :=
  Trade.mk "BTC" buy (num quantity) (num price).
Definition sellBTC (quantity price : Z) : Trade.t :=
  Trade.mk "BTC" sell (num quantity) (num price).
Definition sellETH (quantity price : Z) : Trade.t :=
  Trade.mk "ETH" sell (num quantity) (num price).

(** Create a portfolio, buy 1 BTC at 100, then 1 BTC at 200. *)
Definition twoBuys : M PortfolioState bool :=
  createPortfolio "Main Portfolio" ;;
  executeTrade (buyBTC 1 100) ;;
  executeTrade (buyBTC 1 200).

(** Buy 1 BTC at 100, then sell it at [price]. *)
Definition buyThenSell (price : Z) : M PortfolioState bool :=
  executeTrade (buyBTC 1 100) ;;
  executeTrade (sellBTC 1 price).

(** Create a portfolio and buy 1 BTC at 100. *)
Definition oneBuy : M PortfolioState bool :=
  createPortfolio "Main Portfolio" ;;
  executeTrade (buyBTC 1 100).
End Portfolios.

Module Positions.
Import Trading PositionStore.

(** One long position of 1 BTC entered at 50000. *)
Definition btc : Position.t :=
  Position.mk "pos_1" "p1" "BTC" buy (num 1) (num 50000) (num 50000)
              (Some 0) 0 0 0.

Definition btcStore : PositionStoreState := mkState [btc] [] [].

(** A short position of 2 ETH of another portfolio, next to [btc]. *)
Definition eth : Position.t :=
  Position.mk "pos_2" "p2" "ETH" sell (num 2) (num 3000) (num 3000)
              (Some 0) 0 0 0.

Definition twoPositions : PositionStoreState := mkState [btc; eth] [] [].

(** Prices that move BTC up to 55000 and ETH down to 2500. *)
Definition prices : gmap string number :=
  {[ "BTC" := num 55000; "ETH" := num 2500 ]}.

(** A cancelled order to buy 1 BTC. *)
Definition cancelledOrder : Order.t :=
  Order.mk "order_1" "p1" "BTC" buy market (num 1) None cancelled 0 None None.

Definition cancelledStore : PositionStoreState := mkState [] [] [cancelledOrder].

(** The account behind portfolio [p1], with 100000 in cash. *)
Definition account : Portfolio.t :=
  Portfolio.mk "p1" "Main" (num 100000) (num 100000) (num 100000) 0 0 0 0.

(** A sell of 2 ETH at 3000 on the empty store, which opens a short
    position, and a sell of 1 ETH at 2500 after it. *)
Definition shortSale : M PositionStoreState TradeResult.t :=
  executeTrade "p2" "ETH" sell (num 2) (num 3000) market.

Definition sellIntoShort : M PositionStoreState TradeResult.t :=
  shortSale ;;
  executeTrade "p2" "ETH" sell (num 1) (num 2500) market.

(** Two buys of 1 BTC, at 100 then at 200, on the empty store. *)
Definition twoBuys : M PositionStoreState TradeResult.t :=
  executeTrade "p1" "BTC" buy (num 1) (num 100) market ;;
  executeTrade "p1" "BTC" buy (num 1) (num 200) market.
End Positions.

End Examples.

(** * Properties *)

(** ** Lists *)

Section list_facts.
Context {A : Type}.

(** [array.map((p, index) => index === k ? x : p)] replaces the element at
    index [k]. *)
Lemma imap_replace (k : nat) (x : A) (l : list A) :
  imap (λ index p, if decide (index = k) then x else p) l = <[k:=x]> l.
Proof.
  apply list_eq. intros j. rewrite list_lookup_imap.
  destruct (decide (j = k)) as [->|Hne].
  - destruct (l !! k) as [y|] eqn:E; simpl.
    + symmetry. apply list_lookup_insert_eq. by eapply lookup_lt_Some.
    + symmetry. apply lookup_ge_None. rewrite length_insert.
      by apply lookup_ge_None.
  - rewrite list_lookup_insert_ne by done.
    by destruct (l !! j).
Qed.

(** Replacing the element found by a search on a key with one of the same
    key does not move it. *)
Lemma list_find_insert_key {K : Type} `{EqDecision K} (key : A → K) (a : K)
    (l : list A) (i : nat) (x y : A) :
  list_find (λ z, key z = a) l = Some (i, x) →
  key y = a →
  list_find (λ z, key z = a) (<[i:=y]> l) = Some (i, y).
Proof.
  intros Hfind Hy. apply list_find_Some in Hfind as (Hi & _ & Hbefore).
  apply list_find_Some. split_and!.
  - apply list_lookup_insert_eq. by eapply lookup_lt_Some.
  - done.
  - intros j z Hj Hlt. rewrite list_lookup_insert_ne in Hj by lia.
    by eapply Hbefore.
Qed.

(** [l[i].field -= d] rewrites the element at index [i]. *)
Lemma alter_lookup_insert (f : A → A) (l : list A) (i : nat) (x : A) :
  l !! i = Some x → alter f i l = <[i:=f x]> l.
Proof.
  intros Hi. apply list_eq. intros k. destruct (decide (k = i)) as [->|Hne].
  - rewrite list_lookup_alter_eq, Hi. symmetry.
    apply list_lookup_insert_eq. by eapply lookup_lt_Some.
  - by rewrite list_lookup_alter_ne, list_lookup_insert_ne.
Qed.

Lemma Qcsum_app (l k : list number) : Qcsum (l ++ k) = Qcsum l + Qcsum k.
Proof.
  induction l as [|x l IH]; simpl.
  - by rewrite Qcplus_0_l.
  - rewrite IH. ring.
Qed.

End list_facts.

(** ** The portfolio store: rejected trades *)

Section rejected.
Import PortfolioStore Ledger.
Context (state : PortfolioState) (h : Host).
Context (portfolioIndex : nat) (portfolio : Portfolio.t).
Context (Hactive : active state portfolioIndex portfolio).

(** A buy with positive quantity and price whose cost
    [quantity × price] exceeds the cash balance of the portfolio is
    rejected ([executeTrade] returns [false], its insufficient-funds
    failure) and nothing is mutated: the store, hence the cash balance,
    the positions and the transaction log of the portfolio, is the one
    before the call, and so is the host. The portfolio store charges no
    fee. *)
Lemma portfolio_buy_rejected (trade : Trade.t) :
  Trade.type trade = buy →
  0 < Trade.quantity trade →
  0 < Trade.price trade →
  Portfolio.balance portfolio < Trade.quantity trade * Trade.price trade →
  executeTrade trade state h = (false, state, h).
Proof.
  intros Hbuy _ _ Hcost. destruct Hactive as [Hid Hfind].
  unfold executeTrade, bind, get. rewrite Hid, Hfind, Hbuy.
  by rewrite decide_True.
Qed.

(** A sell in a symbol for which the portfolio holds no open position is
    rejected (no position), and so is a sell of strictly more than the
    quantity held (insufficient quantity); [executeTrade] returns [false]
    in both cases and leaves the store and the host as they were. *)
Lemma portfolio_sell_rejected (trade : Trade.t) :
  Trade.type trade = sell →
  (holding portfolio (Trade.symbol trade) = None →
   executeTrade trade state h = (false, state, h)) ∧
  (∀ positionIndex position,
     holding portfolio (Trade.symbol trade) = Some (positionIndex, position) →
     Position.quantity position < Trade.quantity trade →
     executeTrade trade state h = (false, state, h)).
Proof.
  intros Hsell. destruct Hactive as [Hid Hfind]. unfold holding.
  split.
  - intros Hnone. unfold executeTrade, bind, get.
    by rewrite Hid, Hfind, Hsell, Hnone.
  - intros j position Hpos Hlt. unfold executeTrade, bind, get.
    rewrite Hid, Hfind, Hsell, Hpos. by rewrite decide_True.
Qed.

(** A buy that succeeded was funded. *)
Lemma executeTrade_buy_funded (trade : Trade.t) :
  Trade.type trade = buy →
  result (executeTrade trade) state h = true →
  ¬ Portfolio.balance portfolio < Trade.quantity trade * Trade.price trade.
Proof.
  intros Hbuy Hok Hlt. destruct Hactive as [Hid Hfind].
  unfold result, executeTrade, bind, get in Hok.
  rewrite Hid, Hfind, Hbuy in Hok. by rewrite decide_True in Hok.
Qed.

End rejected.

(** ** The portfolio store: the four ways a trade is filled *)

Section fills.
Import PortfolioStore Ledger.
Context (state : PortfolioState) (h : Host).
Context (portfolioIndex : nat) (portfolio : Portfolio.t).
Context (Hactive : active state portfolioIndex portfolio).
Context (trade : Trade.t).

Let totalCost := Trade.quantity trade * Trade.price trade.

Lemma updateState_replace (i : nat) (p : Portfolio.t) (s : PortfolioState)
    (h0 : Host) :
  updateState i p s h0 = (true, replacePortfolio s i p, h0).
Proof.
  unfold updateState, bind, set, ret, replacePortfolio.
  by rewrite imap_replace.
Qed.

Lemma active_replace (p : Portfolio.t) :
  Portfolio.id p = Portfolio.id portfolio →
  active (replacePortfolio state portfolioIndex p) portfolioIndex p.
Proof.
  intros Hp. destruct Hactive as [Hid Hfind]. split; simpl.
  - by rewrite Hp.
  - rewrite Hp. by eapply list_find_insert_key.
Qed.

(** A buy in a symbol that the portfolio does not hold opens a position. *)
Lemma executeTrade_buy_open :
  Trade.type trade = buy →
  ¬ Portfolio.balance portfolio < totalCost →
  holding portfolio (Trade.symbol trade) = None →
  ∃ tx posId entryTime h',
    records tx trade portfolio ∧
    executeTrade trade state h =
      (true,
       replacePortfolio state portfolioIndex
         (settle portfolio (Portfolio.balance portfolio - totalCost)
            (Portfolio.positions portfolio ++
               [Position.mk posId (Trade.symbol trade) (Trade.quantity trade)
                  (Trade.price trade) entryTime long])
            tx),
       h').
Proof.
  intros Hbuy Hcost Hnone. destruct Hactive as [Hid Hfind].
  unfold holding in Hnone. unfold executeTrade, bind, get.
  rewrite Hid, Hfind, Hbuy. rewrite decide_False by done.
  rewrite Hnone. unfold generateId, Date_now, Math_random_suffix, bind, ret.
  rewrite updateState_replace. do 4 eexists. split; [|reflexivity].
  by rewrite <- Hbuy.
Qed.

(** A buy in a symbol that the portfolio holds is merged into the
    position. *)
Lemma executeTrade_buy_merge (j : nat) (existing : Position.t) :
  Trade.type trade = buy →
  ¬ Portfolio.balance portfolio < totalCost →
  holding portfolio (Trade.symbol trade) = Some (j, existing) →
  ∃ tx h',
    records tx trade portfolio ∧
    executeTrade trade state h =
      (true,
       replacePortfolio state portfolioIndex
         (settle portfolio (Portfolio.balance portfolio - totalCost)
            (<[j := Position.mk (Position.id existing) (Position.symbol existing)
                      (Position.quantity existing + Trade.quantity trade)
                      ((Position.quantity existing * Position.entryPrice existing
                        + Trade.quantity trade * Trade.price trade)
                       / (Position.quantity existing + Trade.quantity trade))
                      (Position.entryTime existing) (Position.type existing)]>
               (Portfolio.positions portfolio))
            tx),
       h').
Proof.
  intros Hbuy Hcost Hsome. destruct Hactive as [Hid Hfind].
  unfold holding in Hsome. unfold executeTrade, bind, get.
  rewrite Hid, Hfind, Hbuy. rewrite decide_False by done.
  rewrite Hsome. unfold generateId, Date_now, Math_random_suffix, bind, ret.
  rewrite updateState_replace. do 2 eexists. split; [|reflexivity].
  by rewrite <- Hbuy.
Qed.

(** A sell of exactly the quantity held closes the position. *)
Lemma executeTrade_sell_close (j : nat) (position : Position.t) :
  Trade.type trade = sell →
  holding portfolio (Trade.symbol trade) = Some (j, position) →
  Position.quantity position = Trade.quantity trade →
  ∃ tx h',
    records tx trade portfolio ∧
    executeTrade trade state h =
      (true,
       replacePortfolio state portfolioIndex
         (settle portfolio (Portfolio.balance portfolio + totalCost)
            (delete j (Portfolio.positions portfolio)) tx),
       h').
Proof.
  intros Hsell Hsome Hq. destruct Hactive as [Hid Hfind].
  unfold holding in Hsome. unfold executeTrade, bind, get.
  rewrite Hid, Hfind, Hsell, Hsome.
  rewrite decide_False by (rewrite Hq; apply (irreflexivity Qclt)).
  rewrite decide_True by done.
  unfold generateId, Date_now, Math_random_suffix, bind, ret.
  rewrite updateState_replace. do 2 eexists. split; [|reflexivity].
  by rewrite <- Hsell.
Qed.

(** A sell of less than the quantity held reduces the position. *)
Lemma executeTrade_sell_reduce (j : nat) (position : Position.t) :
  Trade.type trade = sell →
  holding portfolio (Trade.symbol trade) = Some (j, position) →
  Trade.quantity trade < Position.quantity position →
  ∃ tx h',
    records tx trade portfolio ∧
    executeTrade trade state h =
      (true,
       replacePortfolio state portfolioIndex
         (settle portfolio (Portfolio.balance portfolio + totalCost)
            (<[j := Position.mk (Position.id position) (Position.symbol position)
                      (Position.quantity position - Trade.quantity trade)
                      (Position.entryPrice position)
                      (Position.entryTime position) (Position.type position)]>
               (Portfolio.positions portfolio))
            tx),
       h').
Proof.
  intros Hsell Hsome Hq. destruct Hactive as [Hid Hfind].
  unfold holding in Hsome. unfold executeTrade, bind, get.
  rewrite Hid, Hfind, Hsell, Hsome.
  rewrite decide_False by (by apply Qcle_not_lt, Qclt_le_weak).
  rewrite decide_False by (by apply not_eq_sym, Qclt_not_eq).
  unfold generateId, Date_now, Math_random_suffix, bind, ret.
  rewrite updateState_replace.
  apply list_find_Some in Hsome as (Hj & _ & _).
  rewrite (alter_lookup_insert _ _ _ _ Hj).
  do 2 eexists. split; [|reflexivity]. by rewrite <- Hsell.
Qed.

End fills.

(** ** Valuation *)

Section valuation.
Import PortfolioStore Ledger.

(** A [forEach] that accumulates into a total is the start value plus the
    sum of the terms. *)
Lemma foldl_Qcsum {A} (f : A → number) (l : list A) (start : number) :
  foldl (λ total x, total + f x) start l = start + Qcsum (f <$> l).
Proof.
  revert start. induction l as [|x l IH]; intros start; csimpl.
  - by rewrite Qcplus_0_r.
  - rewrite IH. ring.
Qed.

Lemma getPortfolioValue_found (state : PortfolioState) (portfolioId : string)
    (prices : gmap string number) (i : nat) (portfolio : Portfolio.t) :
  list_find (λ p, Portfolio.id p = portfolioId) (portfolios state)
    = Some (i, portfolio) →
  getPortfolioValue state portfolioId prices = marketValue portfolio prices.
Proof.
  intros Hfind. unfold getPortfolioValue, marketValue. rewrite Hfind. simpl.
  apply (foldl_Qcsum (λ position,
    Position.quantity position *
    number_or (prices !! Position.symbol position) (Position.entryPrice position))).
Qed.

(** C10. For an id that no portfolio of the store carries, and every
    price map, [getPortfolioValue] returns 0 and [getTotalPnL] returns 0:
    no error is signalled. *)
Theorem valuation_of_unknown_portfolio (state : PortfolioState)
    (portfolioId : string) (prices : gmap string number) :
  Forall (λ p, Portfolio.id p ≠ portfolioId) (portfolios state) →
  getPortfolioValue state portfolioId prices = 0 ∧
  getTotalPnL state portfolioId prices = 0.
Proof.
  intros Hall.
  assert (list_find (λ p, Portfolio.id p = portfolioId) (portfolios state) = None)
    as Hnone by (by apply list_find_None).
  unfold getTotalPnL, getPortfolioValue. by rewrite Hnone.
Qed.

End valuation.

Lemma valuation_of_unknown_portfolio_witness :
  PortfolioStore.getPortfolioValue Examples.Portfolios.holderStore "non-existent" ∅ = 0 ∧
  PortfolioStore.getTotalPnL Examples.Portfolios.holderStore "non-existent" ∅ = 0.
Proof.
  apply (valuation_of_unknown_portfolio Examples.Portfolios.holderStore
           "non-existent" ∅).
  repeat constructor. simpl. discriminate.
Defined.

(** ** The position store: its actions *)

Section position_actions.
Import Trading PositionStore.

(** The callback that [updatePosition] maps over the positions. *)
Let touch (id : string) (updates : PositionUpdates.t) (position : Position.t)
  : M PositionStoreState Position.t :=
  if decide (Position.id position = id)
  then let* now := Date_now in ret (applyUpdates position updates now)
  else ret position.

Lemma mapM_touch_store (id : string) (updates : PositionUpdates.t)
    (l : list Position.t) (s : PositionStoreState) (h : Host) :
  (mapM (touch id updates) l s h).1.2 = s.
Proof.
  revert h. induction l as [|x l IH]; intros h; [done|].
  simpl. unfold bind at 1. unfold touch at 1.
  destruct (decide (Position.id x = id)); unfold bind, Date_now, ret; simpl.
  - specialize (IH (advance h)).
    by destruct (mapM (touch id updates) l s (advance h)) as [[??]?].
  - specialize (IH h). by destruct (mapM (touch id updates) l s h) as [[??]?].
Qed.

Lemma mapM_touch_none (id : string) (updates : PositionUpdates.t)
    (l : list Position.t) (s : PositionStoreState) (h : Host) :
  Forall (λ p, Position.id p ≠ id) l →
  mapM (touch id updates) l s h = (l, s, h).
Proof.
  induction 1 as [|x l Hx _ IH]; [done|].
  simpl. unfold bind at 1. unfold touch at 1.
  rewrite decide_False by done. unfold ret at 1. unfold bind at 1.
  by rewrite IH.
Qed.

(** With distinct ids, [updatePosition] rewrites one position. *)
Lemma mapM_touch_one (updates : PositionUpdates.t) (l : list Position.t)
    (j : nat) (e : Position.t) (s : PositionStoreState) (h : Host) :
  NoDup (Position.id <$> l) →
  l !! j = Some e →
  mapM (touch (Position.id e) updates) l s h
    = (<[j := applyUpdates e updates (clock h (calls h))]> l, s, advance h).
Proof.
  revert j. induction l as [|x l IH]; intros j Hnodup Hj; [done|].
  rewrite fmap_cons in Hnodup. apply NoDup_cons in Hnodup as [Hx Hnodup].
  simpl. unfold bind at 1. unfold touch at 1.
  destruct j as [|j]; simplify_eq/=.
  - rewrite decide_True by done. unfold bind, Date_now, ret; simpl.
    fold (touch (Position.id e) updates).
    rewrite mapM_touch_none; [done|].
    apply Forall_forall. intros y Hy Heq. apply Hx.
    rewrite <- Heq. by apply list_elem_of_fmap_2.
  - rewrite decide_False.
    + unfold ret at 1. unfold bind at 1. by rewrite (IH j).
    + intros Heq. apply Hx. rewrite Heq.
      apply list_elem_of_fmap_2. by eapply list_elem_of_lookup_2.
Qed.

Lemma updatePosition_one (updates : PositionUpdates.t)
    (state : PositionStoreState) (h : Host) (j : nat) (e : Position.t) :
  NoDup (Position.id <$> positions state) →
  positions state !! j = Some e →
  updatePosition (Position.id e) updates state h
    = (tt,
       mkState (<[j := applyUpdates e updates (clock h (calls h))]> (positions state))
               (transactions state) (orders state),
       advance h).
Proof.
  intros Hnodup Hj.
  pose proof (mapM_touch_one updates _ j e state h Hnodup Hj) as Hmap.
  unfold touch in Hmap. unfold updatePosition. unfold bind at 1 2. unfold get.
  by rewrite Hmap.
Qed.

(** With distinct ids, a search by id finds the position itself. *)
Lemma find_by_id (l : list Position.t) (j : nat) (e : Position.t) :
  NoDup (Position.id <$> l) →
  l !! j = Some e →
  list_find (λ p, Position.id p = Position.id e) l = Some (j, e).
Proof.
  intros Hnodup Hj. apply list_find_Some. split_and!; [done..|].
  intros k y Hk Hlt Heq.
  assert (k = j); [|lia].
  eapply (NoDup_lookup _ _ _ _ Hnodup).
  - rewrite list_lookup_fmap, Hk. simpl. by rewrite Heq.
  - by rewrite list_lookup_fmap, Hj.
Qed.

Lemma closePosition_found (state : PositionStoreState) (h : Host) (j : nat)
    (e : Position.t) (closePrice : number) :
  NoDup (Position.id <$> positions state) →
  positions state !! j = Some e →
  closePosition (Position.id e) closePrice state h
    = (tt,
       mkState
         (filter (λ p, Position.id p ≠ Position.id e) (positions state))
         (transactions state ++
            [Transaction.mk
               ("tx" +:+ "_" +:+ pretty (clock h (calls h)) +:+ "_"
                  +:+ entropy h (S (calls h)))
               (Position.portfolioId e) (Position.symbol e)
               (if decide (Position.side e = buy) then sell else buy)
               (Position.quantity e) closePrice
               (Position.quantity e * closePrice * DEFAULT_TRADING_FEE_PERCENT)
               (Position.quantity e * closePrice
                - Position.quantity e * closePrice * DEFAULT_TRADING_FEE_PERCENT)
               (clock h (S (S (calls h)))) None])
         (orders state),
       advance (advance (advance h))).
Proof.
  intros Hnodup Hj. unfold closePosition. unfold bind at 1. unfold get.
  by rewrite (find_by_id _ j e Hnodup Hj).
Qed.

(** Without the distinctness of the ids, the closing transaction is the
    one of the first position that carries the id. *)
Lemma closePosition_at (state : PositionStoreState) (h : Host) (j : nat)
    (e : Position.t) (closePrice : number) :
  positions state !! j = Some e →
  ∃ closing h',
    Transaction.price closing = closePrice ∧
    closePosition (Position.id e) closePrice state h
      = (tt,
         mkState
           (filter (λ p, Position.id p ≠ Position.id e) (positions state))
           (transactions state ++ [closing]) (orders state),
         h').
Proof.
  intros Hj. unfold closePosition. unfold bind at 1. unfold get.
  destruct (list_find (λ p, Position.id p = Position.id e) (positions state))
    as [[k e']|] eqn:Hfind; simpl.
  - by eexists (Transaction.mk _ _ _ _ _ _ _ _ _ _), _.
  - apply list_find_None in Hfind.
    apply list_elem_of_lookup_2 in Hj.
    by destruct (proj1 (Forall_forall _ _) Hfind e Hj).
Qed.

Lemma updatePosition_transactions (id : string) (updates : PositionUpdates.t)
    (state : PositionStoreState) (h : Host) :
  transactions (exec (updatePosition id updates) state h) = transactions state.
Proof.
  pose proof (mapM_touch_store id updates (positions state) state h) as Hs.
  unfold touch in Hs. unfold exec, updatePosition. unfold bind at 1 2.
  unfold get.
  by destruct (mapM _ (positions state) state h) as [[??]?]; simpl in *; subst.
Qed.

(** Whatever the ids, [updatePosition] keeps the length and rewrites the
    positions that carry the id, each where it stands. *)
Lemma mapM_touch_at (id : string) (updates : PositionUpdates.t)
    (l : list Position.t) (s : PositionStoreState) (h : Host) :
  ∃ l' h',
    mapM (touch id updates) l s h = (l', s, h') ∧
    length l' = length l ∧
    ∀ k x, l !! k = Some x →
      ∃ now, l' !! k =
        Some (if decide (Position.id x = id)
              then applyUpdates x updates now else x).
Proof.
  revert h. induction l as [|y l IH]; intros h.
  - exists [], h. by split_and!.
  - simpl. unfold bind at 1. unfold touch at 1.
    destruct (decide (Position.id y = id)) as [Hy|Hy].
    + unfold bind at 1. unfold Date_now, ret at 1.
      destruct (IH (advance h)) as (l' & h' & Heq & Hlen & Hat).
      unfold bind at 1. rewrite Heq.
      eexists _, h'. split_and!; [reflexivity|by simpl; f_equal|].
      intros [|k] x Hk; simplify_eq/=.
      * exists (clock h (calls h)). by rewrite decide_True.
      * by apply Hat.
    + unfold ret at 1.
      destruct (IH h) as (l' & h' & Heq & Hlen & Hat).
      unfold bind at 1. rewrite Heq.
      eexists _, h'. split_and!; [reflexivity|by simpl; f_equal|].
      intros [|k] x Hk; simplify_eq/=.
      * exists 0%Z. by rewrite decide_False.
      * by apply Hat.
Qed.

Lemma updatePosition_at (id : string) (updates : PositionUpdates.t)
    (state : PositionStoreState) (h : Host) :
  ∃ positions' h',
    updatePosition id updates state h
      = (tt, mkState positions' (transactions state) (orders state), h') ∧
    length positions' = length (positions state) ∧
    ∀ k x, positions state !! k = Some x →
      ∃ now, positions' !! k =
        Some (if decide (Position.id x = id)
              then applyUpdates x updates now else x).
Proof.
  destruct (mapM_touch_at id updates (positions state) state h)
    as (l' & h' & Heq & Hlen & Hat).
  unfold touch in Heq. exists l', h'. split_and!; [|done..].
  unfold updatePosition. unfold bind at 1 2. unfold get. by rewrite Heq.
Qed.

Lemma updatePosition_shape (id : string) (updates : PositionUpdates.t)
    (state : PositionStoreState) (h : Host) :
  ∃ positions' h',
    updatePosition id updates state h
      = (tt, mkState positions' (transactions state) (orders state), h').
Proof.
  pose proof (mapM_touch_store id updates (positions state) state h) as Hs.
  unfold touch in Hs. unfold updatePosition. unfold bind at 1 2. unfold get.
  destruct (mapM _ (positions state) state h) as [[ps s] h']; simpl in *; subst.
  by exists ps, h'.
Qed.

Lemma closePosition_shape (id : string) (closePrice : number)
    (state : PositionStoreState) (h : Host) :
  ∃ positions' closing h',
    closePosition id closePrice state h
      = (tt, mkState positions' (transactions state ++ closing) (orders state), h').
Proof.
  unfold closePosition. unfold bind at 1. unfold get.
  destruct (list_find _ (positions state)) as [[j e]|]; simpl.
  - by eexists _, [_], _.
  - exists (positions state), [], h. rewrite app_nil_r. by destruct state.
Qed.

End position_actions.

(** ** The position store: how a trade is filled *)

Section position_fills.
Import Trading PositionStore Book.
Context (state : PositionStoreState) (h : Host).
Context (portfolioId symbol : string) (side : OrderSide).
Context (quantity price : number) (type : OrderType).

(** A trade on the side of the position it meets is merged into it. *)
Lemma position_executeTrade_merge (j : nat) (e : Position.t) :
  NoDup (Position.id <$> positions state) →
  existing state portfolioId symbol = Some (j, e) →
  Position.side e = side →
  ∃ tx now h',
    fill tx portfolioId symbol side quantity price ∧
    executeTrade portfolioId symbol side quantity price type state h =
      (TradeResult.mk true (Some (Position.id e)) (Some (Transaction.id tx)) None,
       mkState
         (<[j := Position.mk (Position.id e) (Position.portfolioId e)
                   (Position.symbol e) (Position.side e)
                   (Position.quantity e + quantity)
                   ((Position.entryPrice e * Position.quantity e + price * quantity)
                    / (Position.quantity e + quantity))
                   price
                   (Position.unrealizedPnL e) (Position.unrealizedPnLPercent e)
                   (Position.createdAt e) now]> (positions state))
         (transactions state ++ [tx]) (orders state),
       h').
Proof.
  intros Hnodup Hfind Hside. unfold existing in Hfind.
  unfold executeTrade. unfold bind at 1. unfold get.
  unfold bind at 1. unfold Date_now at 1.
  unfold bind at 1. unfold addTransaction, generateId, Date_now,
    Math_random_suffix, bind, ret, set; simpl.
  rewrite Hfind; simpl. rewrite (decide_True _ _ Hside).
  apply list_find_Some in Hfind as (Hj & _ & _).
  erewrite (updatePosition_one _ _ _ j e); [|done..].
  eexists (Transaction.mk _ _ _ _ _ _ _ _ _ _). do 2 eexists.
  split; [|reflexivity]. by repeat split.
Qed.

(** A trade against the position it meets, of less than its quantity,
    reduces it. *)
Lemma position_executeTrade_reduce (j : nat) (e : Position.t) :
  NoDup (Position.id <$> positions state) →
  existing state portfolioId symbol = Some (j, e) →
  Position.side e ≠ side →
  quantity < Position.quantity e →
  ∃ tx now h',
    fill tx portfolioId symbol side quantity price ∧
    executeTrade portfolioId symbol side quantity price type state h =
      (TradeResult.mk true (Some (Position.id e)) (Some (Transaction.id tx)) None,
       mkState
         (<[j := Position.mk (Position.id e) (Position.portfolioId e)
                   (Position.symbol e) (Position.side e)
                   (Position.quantity e - quantity)
                   (Position.entryPrice e)
                   price
                   (Position.unrealizedPnL e) (Position.unrealizedPnLPercent e)
                   (Position.createdAt e) now]> (positions state))
         (transactions state ++ [tx]) (orders state),
       h').
Proof.
  intros Hnodup Hfind Hside Hlt. unfold existing in Hfind.
  unfold executeTrade. unfold bind at 1. unfold get.
  unfold bind at 1. unfold Date_now at 1.
  unfold bind at 1. unfold addTransaction, generateId, Date_now,
    Math_random_suffix, bind, ret, set; simpl.
  rewrite Hfind; simpl. rewrite (decide_False _ _ Hside).
  rewrite (decide_False _ _ (Qclt_not_le _ _ Hlt)).
  apply list_find_Some in Hfind as (Hj & _ & _).
  erewrite (updatePosition_one _ _ _ j e); [|done..].
  eexists (Transaction.mk _ _ _ _ _ _ _ _ _ _). do 2 eexists.
  split; [|reflexivity]. by repeat split.
Qed.

(** A trade against the position it meets, of exactly its quantity,
    removes the position, and the log receives two transactions: the
    fill that [executeTrade] records and the closing transaction that
    [closePosition] records for the same fill. *)
Lemma position_executeTrade_close (j : nat) (e : Position.t) :
  NoDup (Position.id <$> positions state) →
  existing state portfolioId symbol = Some (j, e) →
  Position.side e ≠ side →
  Position.quantity e = quantity →
  ∃ tx closing h',
    fill tx portfolioId symbol side quantity price ∧
    Transaction.quantity closing = quantity ∧
    Transaction.price closing = price ∧
    Transaction.portfolioId closing = Position.portfolioId e ∧
    Transaction.symbol closing = Position.symbol e ∧
    Transaction.side closing
      = (if decide (Position.side e = buy) then sell else buy) ∧
    executeTrade portfolioId symbol side quantity price type state h =
      (TradeResult.mk true None (Some (Transaction.id tx)) None,
       mkState
         (filter (λ p, Position.id p ≠ Position.id e) (positions state))
         (transactions state ++ [tx; closing]) (orders state),
       h').
Proof.
  intros Hnodup Hfind Hside Hq. unfold existing in Hfind.
  unfold executeTrade. unfold bind at 1. unfold get.
  unfold bind at 1. unfold Date_now at 1.
  unfold bind at 1. unfold addTransaction, generateId, Date_now,
    Math_random_suffix, bind, ret, set; simpl.
  rewrite Hfind; simpl. rewrite (decide_False _ _ Hside).
  assert (Position.quantity e ≤ quantity) as Hle by (rewrite Hq; apply Qcle_refl).
  assert (¬ Position.quantity e < quantity) as Hnlt
    by (rewrite Hq; apply (irreflexivity Qclt)).
  rewrite (decide_True _ _ Hle).
  apply list_find_Some in Hfind as (Hj & _ & _).
  erewrite (closePosition_found _ _ j e); [|done..].
  rewrite (decide_False _ _ Hnlt). simpl. rewrite <- app_assoc. simpl.
  eexists (Transaction.mk _ _ _ _ _ _ _ _ _ _).
  eexists (Transaction.mk _ _ _ _ _ _ _ _ _ _). eexists.
  split_and!; [..|reflexivity]; by repeat split.
Qed.

(** The two lemmas above without the distinctness of the ids: the position
    that the trade meets is rewritten where it stands, the length is kept,
    and the positions that carry another id are untouched. *)
Lemma position_executeTrade_merge_at (j : nat) (e : Position.t) :
  existing state portfolioId symbol = Some (j, e) →
  Position.side e = side →
  ∃ tx now positions' h',
    fill tx portfolioId symbol side quantity price ∧
    positions' !! j =
      Some (Position.mk (Position.id e) (Position.portfolioId e)
              (Position.symbol e) (Position.side e)
              (Position.quantity e + quantity)
              ((Position.entryPrice e * Position.quantity e + price * quantity)
               / (Position.quantity e + quantity))
              price
              (Position.unrealizedPnL e) (Position.unrealizedPnLPercent e)
              (Position.createdAt e) now) ∧
    length positions' = length (positions state) ∧
    (∀ k x, positions state !! k = Some x →
            Position.id x ≠ Position.id e → positions' !! k = Some x) ∧
    executeTrade portfolioId symbol side quantity price type state h =
      (TradeResult.mk true (Some (Position.id e)) (Some (Transaction.id tx)) None,
       mkState positions' (transactions state ++ [tx]) (orders state), h').
Proof.
  intros Hfind Hside. unfold existing in Hfind.
  unfold executeTrade. unfold bind at 1. unfold get.
  unfold bind at 1. unfold Date_now at 1.
  unfold bind at 1. unfold addTransaction, generateId, Date_now,
    Math_random_suffix, bind, ret, set; simpl.
  rewrite Hfind; simpl. rewrite (decide_True _ _ Hside).
  apply list_find_Some in Hfind as (Hj & _ & _).
  edestruct updatePosition_at as (ps & h' & Heq & Hlen & Hat). rewrite Heq.
  simpl in Hlen, Hat. destruct (Hat j e Hj) as [now Hnow].
  rewrite decide_True in Hnow by done.
  eexists (Transaction.mk _ _ _ _ _ _ _ _ _ _), now, ps, h'.
  split_and!; [| | | |reflexivity]; [by repeat split|done|done|].
  intros k x Hk Hne. destruct (Hat k x Hk) as [now' Hnow'].
  by rewrite decide_False in Hnow'.
Qed.

Lemma position_executeTrade_reduce_at (j : nat) (e : Position.t) :
  existing state portfolioId symbol = Some (j, e) →
  Position.side e ≠ side →
  quantity < Position.quantity e →
  ∃ tx now positions' h',
    fill tx portfolioId symbol side quantity price ∧
    positions' !! j =
      Some (Position.mk (Position.id e) (Position.portfolioId e)
              (Position.symbol e) (Position.side e)
              (Position.quantity e - quantity)
              (Position.entryPrice e)
              price
              (Position.unrealizedPnL e) (Position.unrealizedPnLPercent e)
              (Position.createdAt e) now) ∧
    length positions' = length (positions state) ∧
    (∀ k x, positions state !! k = Some x →
            Position.id x ≠ Position.id e → positions' !! k = Some x) ∧
    executeTrade portfolioId symbol side quantity price type state h =
      (TradeResult.mk true (Some (Position.id e)) (Some (Transaction.id tx)) None,
       mkState positions' (transactions state ++ [tx]) (orders state), h').
Proof.
  intros Hfind Hside Hlt. unfold existing in Hfind.
  unfold executeTrade. unfold bind at 1. unfold get.
  unfold bind at 1. unfold Date_now at 1.
  unfold bind at 1. unfold addTransaction, generateId, Date_now,
    Math_random_suffix, bind, ret, set; simpl.
  rewrite Hfind; simpl. rewrite (decide_False _ _ Hside).
  rewrite (decide_False _ _ (Qclt_not_le _ _ Hlt)).
  apply list_find_Some in Hfind as (Hj & _ & _).
  edestruct updatePosition_at as (ps & h' & Heq & Hlen & Hat). rewrite Heq.
  simpl in Hlen, Hat. destruct (Hat j e Hj) as [now Hnow].
  rewrite decide_True in Hnow by done.
  eexists (Transaction.mk _ _ _ _ _ _ _ _ _ _), now, ps, h'.
  split_and!; [| | | |reflexivity]; [by repeat split|done|done|].
  intros k x Hk Hne. destruct (Hat k x Hk) as [now' Hnow'].
  by rewrite decide_False in Hnow'.
Qed.

(** A trade in a symbol in which the portfolio has no position opens one
    on the side of the trade, a sell as well as a buy. *)
Lemma position_executeTrade_open :
  existing state portfolioId symbol = None →
  ∃ tx opened h',
    fill tx portfolioId symbol side quantity price ∧
    Position.portfolioId opened = portfolioId ∧
    Position.symbol opened = symbol ∧
    Position.side opened = side ∧
    Position.quantity opened = quantity ∧
    Position.entryPrice opened = price ∧
    executeTrade portfolioId symbol side quantity price type state h =
      (TradeResult.mk true (Some (Position.id opened))
                      (Some (Transaction.id tx)) None,
       mkState (positions state ++ [opened]) (transactions state ++ [tx])
               (orders state),
       h').
Proof.
  intros Hfind. unfold existing in Hfind.
  unfold executeTrade. unfold bind at 1. unfold get.
  unfold bind at 1. unfold Date_now at 1.
  unfold bind at 1. unfold addTransaction, addPosition, generateId, Date_now,
    Math_random_suffix, bind, ret, set; simpl.
  rewrite Hfind; simpl.
  eexists (Transaction.mk _ _ _ _ _ _ _ _ _ _),
          (Position.mk _ _ _ _ _ _ _ _ _ _ _), _.
  split_and!; [| | | | | |reflexivity]; by repeat split.
Qed.

(** A trade against the position it meets, of more than its quantity,
    removes the position and opens one on the side of the trade with the
    excess. *)
Lemma position_executeTrade_flip (j : nat) (e : Position.t) :
  existing state portfolioId symbol = Some (j, e) →
  Position.side e ≠ side →
  Position.quantity e < quantity →
  ∃ tx closing opened h',
    fill tx portfolioId symbol side quantity price ∧
    Position.portfolioId opened = portfolioId ∧
    Position.symbol opened = symbol ∧
    Position.side opened = side ∧
    Position.quantity opened = quantity - Position.quantity e ∧
    Position.entryPrice opened = price ∧
    executeTrade portfolioId symbol side quantity price type state h =
      (TradeResult.mk true (Some (Position.id opened))
                      (Some (Transaction.id tx)) None,
       mkState
         (filter (λ p, Position.id p ≠ Position.id e) (positions state)
            ++ [opened])
         (transactions state ++ [tx; closing]) (orders state),
       h').
Proof.
  intros Hfind Hside Hlt. unfold existing in Hfind.
  unfold executeTrade. unfold bind at 1. unfold get.
  unfold bind at 1. unfold Date_now at 1.
  unfold bind at 1. unfold addTransaction, generateId, Date_now,
    Math_random_suffix, bind, ret, set; simpl.
  rewrite Hfind; simpl. rewrite (decide_False _ _ Hside).
  rewrite (decide_True _ _ (Qclt_le_weak _ _ Hlt)).
  apply list_find_Some in Hfind as (Hj & _ & _).
  edestruct (closePosition_at) as (closing & h' & Hprice & Heq);
    [|rewrite Heq]; [exact Hj|].
  rewrite (decide_True _ _ Hlt). unfold addPosition, generateId, Date_now,
    Math_random_suffix, bind, ret, set; simpl.
  rewrite <- app_assoc. simpl.
  eexists (Transaction.mk _ _ _ _ _ _ _ _ _ _), closing,
          (Position.mk _ _ _ _ _ _ _ _ _ _ _), _.
  split_and!; [| | | | | |reflexivity]; by repeat split.
Qed.

(** Every call succeeds and its first new transaction records the fill
    with the fee of [DEFAULT_TRADING_FEE_PERCENT]. *)
Lemma position_executeTrade_records :
  TradeResult.success
    (result (executeTrade portfolioId symbol side quantity price type) state h)
    = true ∧
  ∃ tx closing,
    fill tx portfolioId symbol side quantity price ∧
    transactions (exec (executeTrade portfolioId symbol side quantity price type)
                       state h)
      = transactions state ++ tx :: closing.
Proof.
  unfold result, exec, executeTrade. unfold bind at 1 3. unfold get.
  unfold bind at 1 3. unfold Date_now at 1 2.
  unfold bind at 1 3. unfold addTransaction, generateId, Date_now,
    Math_random_suffix, bind, ret, set; simpl.
  destruct (list_find _ (positions state)) as [[j e]|]; simpl.
  - destruct (decide (Position.side e = side)) as [Hside|Hside].
    + edestruct updatePosition_shape as (ps & h' & Heq). rewrite Heq. simpl.
      split; [done|]. eexists (Transaction.mk _ _ _ _ _ _ _ _ _ _), [].
      split; [|reflexivity]. by repeat split.
    + destruct (decide (Position.quantity e ≤ quantity)) as [Hle|Hle].
      * edestruct closePosition_shape as (ps & closing & h' & Heq).
        rewrite Heq. simpl.
        destruct (decide (Position.quantity e < quantity)); simpl;
          (split; [done|]); rewrite <- app_assoc;
          eexists (Transaction.mk _ _ _ _ _ _ _ _ _ _), _;
          (split; [|reflexivity]); by repeat split.
      * edestruct updatePosition_shape as (ps & h' & Heq). rewrite Heq. simpl.
        split; [done|]. eexists (Transaction.mk _ _ _ _ _ _ _ _ _ _), [].
        split; [|reflexivity]. by repeat split.
  - split; [done|]. eexists (Transaction.mk _ _ _ _ _ _ _ _ _ _), [].
    split; [|reflexivity]. by repeat split.
Qed.

End position_fills.

(** ** Sells beyond the holding, merges, closes and reductions *)

Section trade_claims.
Import Ledger Book Examples.

(** C2, as the code has it. In the portfolio store a buy with positive
    quantity and price whose cost [quantity × price] exceeds the cash
    balance of the portfolio is rejected: [executeTrade] returns [false],
    the value it returns for every rejection, and nothing is mutated; the
    store, hence the cash balance, the positions and the transaction log,
    is the one before the call, and so is the host. The portfolio store
    adds no fee to the cost. The position store keeps no cash and checks
    no funds: every buy succeeds and is logged. *)
Theorem executeTrade_insufficient_funds :
  (∀ state h portfolioIndex portfolio trade,
     active state portfolioIndex portfolio →
     PortfolioStore.Trade.type trade = PortfolioStore.buy →
     0 < PortfolioStore.Trade.quantity trade →
     0 < PortfolioStore.Trade.price trade →
     PortfolioStore.Portfolio.balance portfolio
       < PortfolioStore.Trade.quantity trade * PortfolioStore.Trade.price trade →
     PortfolioStore.executeTrade trade state h = (false, state, h)) ∧
  (∀ state h portfolioId symbol quantity price type,
     let call := PositionStore.executeTrade portfolioId symbol Trading.buy
                   quantity price type in
     PositionStore.TradeResult.success (result call state h) = true ∧
     ∃ tx closing,
       fill tx portfolioId symbol Trading.buy quantity price ∧
       PositionStore.transactions (exec call state h)
         = PositionStore.transactions state ++ tx :: closing).
Proof.
  split.
  - intros state h i p trade Hactive.
    by apply (portfolio_buy_rejected state h i p Hactive).
  - intros state h pid sym q price type call.
    apply position_executeTrade_records.
Qed.

Lemma executeTrade_insufficient_funds_witness :
  active Portfolios.holderStore 0 Portfolios.holder ∧
  PortfolioStore.executeTrade (Portfolios.buyBTC 1 52000)
    Portfolios.holderStore host0
  = (false, Portfolios.holderStore, host0).
Proof.
  assert (active Portfolios.holderStore 0 Portfolios.holder)
    as Hactive by (split; reflexivity).
  split; [exact Hactive|].
  apply (proj1 executeTrade_insufficient_funds _ host0 0%nat Portfolios.holder
           (Portfolios.buyBTC 1 52000) Hactive); reflexivity.
Defined.

(** C2 as stated fails on the position store: a buy of 3 BTC at 50000 for
    portfolio [p1], whose account holds 100000, costs 150000 before the
    fee; it is not rejected but reports success, and the store is no longer
    the one before the call. *)
Lemma position_store_buy_beyond_cash :
  Trading.Portfolio.currentBalance Positions.account < num 3 * num 50000 ∧
  PositionStore.TradeResult.success
    (result (PositionStore.executeTrade (Trading.Portfolio.id Positions.account)
               "BTC" Trading.buy (num 3) (num 50000) Trading.market)
            PositionStore.initialState host0) = true ∧
  exec (PositionStore.executeTrade (Trading.Portfolio.id Positions.account)
          "BTC" Trading.buy (num 3) (num 50000) Trading.market)
       PositionStore.initialState host0
    ≠ PositionStore.initialState.
Proof.
  split_and!; [reflexivity..|].
  intros Heq. apply (f_equal (λ s, length (PositionStore.positions s))) in Heq.
  vm_compute in Heq. discriminate.
Qed.

(** C3, as the code has it. In the portfolio store a sell in a symbol
    for which the portfolio holds no open position is rejected, and so is
    a sell of strictly more than the quantity held: [executeTrade] returns
    [false] and the store, hence cash, positions and transactions, is left
    as it was. The position store rejects neither: with no position in
    the symbol its [executeTrade] opens a position on the sell side, and
    against a smaller long position it removes that position and opens a
    sell-side position with the excess; both calls report success. *)
Theorem sell_beyond_holding :
  (∀ state h portfolioIndex portfolio trade,
     active state portfolioIndex portfolio →
     PortfolioStore.Trade.type trade = PortfolioStore.sell →
     (holding portfolio (PortfolioStore.Trade.symbol trade) = None →
      PortfolioStore.executeTrade trade state h = (false, state, h)) ∧
     (∀ positionIndex position,
        holding portfolio (PortfolioStore.Trade.symbol trade)
          = Some (positionIndex, position) →
        PortfolioStore.Position.quantity position
          < PortfolioStore.Trade.quantity trade →
        PortfolioStore.executeTrade trade state h = (false, state, h))) ∧
  (∀ state h portfolioId symbol quantity price type,
     let call := PositionStore.executeTrade portfolioId symbol Trading.sell
                   quantity price type in
     (existing state portfolioId symbol = None →
      PositionStore.TradeResult.success (result call state h) = true ∧
      ∃ opened,
        PositionStore.positions (exec call state h)
          = PositionStore.positions state ++ [opened] ∧
        Trading.Position.side opened = Trading.sell ∧
        Trading.Position.quantity opened = quantity) ∧
     (∀ j e,
        existing state portfolioId symbol = Some (j, e) →
        Trading.Position.side e = Trading.buy →
        Trading.Position.quantity e < quantity →
        PositionStore.TradeResult.success (result call state h) = true ∧
        ∃ opened,
          PositionStore.positions (exec call state h)
            = filter (λ p, Trading.Position.id p ≠ Trading.Position.id e)
                     (PositionStore.positions state) ++ [opened] ∧
          Trading.Position.side opened = Trading.sell ∧
          Trading.Position.quantity opened
            = quantity - Trading.Position.quantity e)).
Proof.
  split.
  - intros state h i p trade Hactive Hsell.
    by apply (portfolio_sell_rejected state h i p Hactive).
  - intros state h pid sym q price type call. split.
    + intros Hnone.
      destruct (position_executeTrade_open state h pid sym Trading.sell
                  q price type Hnone)
        as (tx & opened & h' & _ & _ & _ & Hside & Hq & _ & Heq).
      unfold result, exec, call. rewrite Heq. simpl. split; [done|].
      by exists opened.
    + intros j e Hfind Hside Hlt.
      destruct (position_executeTrade_flip state h pid sym Trading.sell
                  q price type j e Hfind) as
        (tx & closing & opened & h' & _ & _ & _ & Hs & Hq & _ & Heq);
        [by rewrite Hside|done|].
      unfold result, exec, call. rewrite Heq. simpl. split; [done|].
      by exists opened.
Qed.

Lemma sell_beyond_holding_witness :
  PortfolioStore.executeTrade (Portfolios.sellETH 1 3000)
    Portfolios.holderStore host0
  = (false, Portfolios.holderStore, host0) ∧
  PortfolioStore.executeTrade (Portfolios.sellBTC 2 55000)
    Portfolios.holderStore host0
  = (false, Portfolios.holderStore, host0).
Proof.
  assert (active Portfolios.holderStore 0 Portfolios.holder)
    as Hactive by (split; reflexivity).
  split.
  - apply (proj1 (proj1 sell_beyond_holding _ host0 0%nat _
                    (Portfolios.sellETH 1 3000) Hactive eq_refl)).
    reflexivity.
  - apply (proj2 (proj1 sell_beyond_holding _ host0 0%nat _
                    (Portfolios.sellBTC 2 55000) Hactive eq_refl)
             0%nat Portfolios.btc); reflexivity.
Defined.

(** C3 as stated fails on the position store: a sell of 1 ETH in a store
    that holds only BTC is not rejected; it reports success and the
    position set is no longer the one before the call. *)
Lemma position_store_sell_without_position :
  existing Positions.btcStore "p1" "ETH" = None ∧
  PositionStore.TradeResult.success
    (result (PositionStore.executeTrade "p1" "ETH" Trading.sell
               (num 1) (num 3000) Trading.market)
            Positions.btcStore host0) = true ∧
  PositionStore.positions
    (exec (PositionStore.executeTrade "p1" "ETH" Trading.sell
             (num 1) (num 3000) Trading.market)
          Positions.btcStore host0)
    ≠ PositionStore.positions Positions.btcStore.
Proof.
  split_and!; [reflexivity..|].
  intros Heq. apply (f_equal length) in Heq. vm_compute in Heq. discriminate.
Qed.

End trade_claims.

Section merge_claim.
Import Ledger Book Examples.

(** C4. A successful trade on the side of the open position that the
    portfolio holds in the symbol is merged into that position: the quantity
    becomes [oldQuantity + quantity] and the entry price
    [(oldQuantity × oldEntryPrice + quantity × price) / newQuantity], the
    position keeps its place, its id and its symbol, and no position is
    added. This holds in the portfolio store, where positions are long and
    the trade is a buy, and in the position store for either side; in both,
    buying 1 unit at 100 and then 1 unit at 200 of one symbol leaves exactly
    one position, of quantity 2 and entry price 150. *)
Theorem executeTrade_merges_same_side :
  (∀ state h portfolioIndex portfolio trade j existingPosition,
     active state portfolioIndex portfolio →
     PortfolioStore.Trade.type trade = PortfolioStore.buy →
     holding portfolio (PortfolioStore.Trade.symbol trade)
       = Some (j, existingPosition) →
     result (PortfolioStore.executeTrade trade) state h = true →
     ∃ portfolio' merged,
       active (exec (PortfolioStore.executeTrade trade) state h)
              portfolioIndex portfolio' ∧
       PortfolioStore.Portfolio.positions portfolio'
         = <[j := merged]> (PortfolioStore.Portfolio.positions portfolio) ∧
       PortfolioStore.Position.quantity merged
         = PortfolioStore.Position.quantity existingPosition
           + PortfolioStore.Trade.quantity trade ∧
       PortfolioStore.Position.entryPrice merged
         = (PortfolioStore.Position.quantity existingPosition
              * PortfolioStore.Position.entryPrice existingPosition
            + PortfolioStore.Trade.quantity trade * PortfolioStore.Trade.price trade)
           / PortfolioStore.Position.quantity merged ∧
       PortfolioStore.Position.id merged
         = PortfolioStore.Position.id existingPosition ∧
       PortfolioStore.Position.symbol merged
         = PortfolioStore.Position.symbol existingPosition) ∧
  (∀ state h portfolioId symbol side quantity price type j existingPosition,
     let call := PositionStore.executeTrade portfolioId symbol side
                   quantity price type in
     existing state portfolioId symbol = Some (j, existingPosition) →
     Trading.Position.side existingPosition = side →
     PositionStore.TradeResult.success (result call state h) = true ∧
     ∃ merged,
       PositionStore.positions (exec call state h) !! j = Some merged ∧
       length (PositionStore.positions (exec call state h))
         = length (PositionStore.positions state) ∧
       Trading.Position.quantity merged
         = Trading.Position.quantity existingPosition + quantity ∧
       Trading.Position.entryPrice merged
         = (Trading.Position.quantity existingPosition
              * Trading.Position.entryPrice existingPosition
            + quantity * price)
           / Trading.Position.quantity merged ∧
       Trading.Position.id merged = Trading.Position.id existingPosition ∧
       Trading.Position.symbol merged = Trading.Position.symbol existingPosition ∧
       Trading.Position.side merged = side) ∧
  (∃ position,
     PortfolioStore.Portfolio.positions
       <$> PortfolioStore.getActivePortfolio
             (exec Portfolios.twoBuys PortfolioStore.initialState host0)
       = Some [position] ∧
     PortfolioStore.Position.quantity position = num 2 ∧
     PortfolioStore.Position.entryPrice position = num 150) ∧
  (∃ position,
     PositionStore.positions
       (exec Positions.twoBuys PositionStore.initialState host0) = [position] ∧
     Trading.Position.quantity position = num 2 ∧
     Trading.Position.entryPrice position = num 150).
Proof.
  split_and!.
  - intros state h i p trade j e Hactive Hbuy Hhold Hok.
    pose proof (executeTrade_buy_funded state h i p Hactive trade Hbuy Hok) as Hfunded.
    destruct (executeTrade_buy_merge state h i p Hactive trade j e Hbuy Hfunded Hhold)
      as (tx & h' & _ & Heq).
    unfold exec. rewrite Heq. simpl.
    eexists _, (PortfolioStore.Position.mk _ _ _ _ _ _). split_and!.
    + by apply (active_replace state i p Hactive).
    + reflexivity.
    + done.
    + done.
    + done.
    + done.
  - intros state h pid sym side q price type j e call Hfind Hside.
    destruct (position_executeTrade_merge_at state h pid sym side q price type
                j e Hfind Hside)
      as (tx & now & ps & h' & _ & Hj & Hlen & _ & Heq).
    unfold result, exec, call. rewrite Heq. simpl. split; [done|].
    eexists. split_and!; [exact Hj|done|..]; simpl; try done.
    f_equal. ring.
  - eexists. split; [vm_compute; reflexivity|].
    split; apply Qc_is_canon; reflexivity.
  - eexists. split; [vm_compute; reflexivity|].
    split; apply Qc_is_canon; reflexivity.
Qed.

Lemma executeTrade_merges_same_side_witness :
  ∃ portfolio' merged,
    active (exec (PortfolioStore.executeTrade (Portfolios.buyBTC 1 40000))
                 Portfolios.holderStore host0) 0 portfolio' ∧
    PortfolioStore.Portfolio.positions portfolio' = [merged] ∧
    PortfolioStore.Position.quantity merged = num 1 + num 1.
Proof.
  assert (active Portfolios.holderStore 0 Portfolios.holder)
    as Hactive by (split; reflexivity).
  destruct (proj1 executeTrade_merges_same_side Portfolios.holderStore host0
              0%nat Portfolios.holder (Portfolios.buyBTC 1 40000) 0%nat
              Portfolios.btc Hactive eq_refl eq_refl eq_refl)
    as (p' & merged & Hact & Hpos & Hq & _).
  exists p', merged. split_and!; [exact Hact|exact Hpos|exact Hq].
Defined.

End merge_claim.

(** ** The portfolio store: every successful trade *)

Section filled.
Import PortfolioStore Ledger.
Context (state : PortfolioState) (h : Host).
Context (portfolioIndex : nat) (portfolio : Portfolio.t).
Context (Hactive : active state portfolioIndex portfolio).
Context (trade : Trade.t).

(** A trade that succeeded was filled in one of the four ways: the store
    afterwards is the one before with the active portfolio settled. *)
Lemma executeTrade_filled :
  result (executeTrade trade) state h = true →
  ∃ tx positions',
    records tx trade portfolio ∧
    exec (executeTrade trade) state h
      = replacePortfolio state portfolioIndex
          (settle portfolio
             (match Trade.type trade with
              | buy => Portfolio.balance portfolio
                       - Trade.quantity trade * Trade.price trade
              | sell => Portfolio.balance portfolio
                        + Trade.quantity trade * Trade.price trade
              end)
             positions' tx) ∧
    match Trade.type trade, holding portfolio (Trade.symbol trade) with
    | buy, None =>
      ∃ posId entryTime,
        positions' = Portfolio.positions portfolio ++
          [Position.mk posId (Trade.symbol trade) (Trade.quantity trade)
             (Trade.price trade) entryTime long]
    | buy, Some (j, e) =>
      positions' =
        <[j := Position.mk (Position.id e) (Position.symbol e)
                 (Position.quantity e + Trade.quantity trade)
                 ((Position.quantity e * Position.entryPrice e
                   + Trade.quantity trade * Trade.price trade)
                  / (Position.quantity e + Trade.quantity trade))
                 (Position.entryTime e) (Position.type e)]>
          (Portfolio.positions portfolio)
    | sell, Some (j, e) =>
      Trade.quantity trade ≤ Position.quantity e ∧
      positions' =
        if decide (Position.quantity e = Trade.quantity trade)
        then delete j (Portfolio.positions portfolio)
        else <[j := Position.mk (Position.id e) (Position.symbol e)
                      (Position.quantity e - Trade.quantity trade)
                      (Position.entryPrice e)
                      (Position.entryTime e) (Position.type e)]>
               (Portfolio.positions portfolio)
    | sell, None => False
    end.
Proof.
  intros Hok.
  destruct (Trade.type trade) eqn:Htype.
  - pose proof (executeTrade_buy_funded state h _ _ Hactive trade Htype Hok)
      as Hfunded.
    destruct (holding portfolio (Trade.symbol trade)) as [[j e]|] eqn:Hhold.
    + destruct (executeTrade_buy_merge state h _ _ Hactive trade j e
                  Htype Hfunded Hhold) as (tx & h' & Htx & Heq).
      exists tx. eexists. unfold exec. rewrite Heq. by split_and!.
    + destruct (executeTrade_buy_open state h _ _ Hactive trade
                  Htype Hfunded Hhold)
        as (tx & posId & entryTime & h' & Htx & Heq).
      exists tx. eexists. unfold exec. rewrite Heq.
      split_and!; [done|reflexivity|]. by exists posId, entryTime.
  - destruct (holding portfolio (Trade.symbol trade)) as [[j e]|] eqn:Hhold.
    + destruct (decide (Position.quantity e < Trade.quantity trade)) as [Hlt|Hge].
      { unfold result in Hok.
        by rewrite (proj2 (portfolio_sell_rejected state h _ _ Hactive trade Htype)
                      j e Hhold Hlt) in Hok. }
      apply Qcnot_lt_le in Hge.
      destruct (decide (Position.quantity e = Trade.quantity trade)) as [Heq|Hne].
      * destruct (executeTrade_sell_close state h _ _ Hactive trade j e
                    Htype Hhold Heq) as (tx & h' & Htx & Hrun).
        exists tx. eexists. unfold exec. rewrite Hrun. by split_and!.
      * assert (Trade.quantity trade < Position.quantity e) as Hlt.
        { destruct (Qcle_lt_or_eq _ _ Hge) as [?|?]; [done|]. by destruct Hne. }
        destruct (executeTrade_sell_reduce state h _ _ Hactive trade j e
                    Htype Hhold Hlt) as (tx & h' & Htx & Hrun).
        exists tx. eexists. unfold exec. rewrite Hrun. by split_and!.
    + unfold result in Hok.
      by rewrite (proj1 (portfolio_sell_rejected state h _ _ Hactive trade Htype)
                    Hhold) in Hok.
Qed.

End filled.

Section close_claims.
Import Ledger Book Examples.

(** C6, as the code has it. In the portfolio store a sell of [s] with
    [0 < s < q] against an open position of quantity [q] succeeds and
    leaves the entry price of the remaining position as it was: the
    position changes in its quantity only, which becomes [q − s], and the
    cash balance is credited [s × price] (the portfolio store charges no
    fee). In the position store the same holds of a trade of [s] against a
    position of the other side (a sell against a buy-side position, a buy
    against a sell-side one): the position changes in its quantity, its
    cached current price and its update time only, the positions that carry
    another id are untouched, and the transaction records the fill with
    its fee; the position store keeps no cash. *)
Theorem partial_close_preserves_entry_price :
  (∀ state h portfolioIndex portfolio trade j position,
     active state portfolioIndex portfolio →
     PortfolioStore.Trade.type trade = PortfolioStore.sell →
     holding portfolio (PortfolioStore.Trade.symbol trade) = Some (j, position) →
     0 < PortfolioStore.Trade.quantity trade →
     PortfolioStore.Trade.quantity trade < PortfolioStore.Position.quantity position →
     result (PortfolioStore.executeTrade trade) state h = true ∧
     ∃ portfolio' tx,
       active (exec (PortfolioStore.executeTrade trade) state h)
              portfolioIndex portfolio' ∧
       PortfolioStore.Portfolio.positions portfolio'
         = <[j := PortfolioStore.Position.mk
                    (PortfolioStore.Position.id position)
                    (PortfolioStore.Position.symbol position)
                    (PortfolioStore.Position.quantity position
                     - PortfolioStore.Trade.quantity trade)
                    (PortfolioStore.Position.entryPrice position)
                    (PortfolioStore.Position.entryTime position)
                    (PortfolioStore.Position.type position)]>
             (PortfolioStore.Portfolio.positions portfolio) ∧
       PortfolioStore.Portfolio.balance portfolio'
         = PortfolioStore.Portfolio.balance portfolio
           + PortfolioStore.Trade.quantity trade * PortfolioStore.Trade.price trade ∧
       PortfolioStore.Portfolio.transactions portfolio'
         = PortfolioStore.Portfolio.transactions portfolio ++ [tx] ∧
       records tx trade portfolio) ∧
  (∀ state h portfolioId symbol side quantity price type j position,
     let call := PositionStore.executeTrade portfolioId symbol side
                   quantity price type in
     existing state portfolioId symbol = Some (j, position) →
     Trading.Position.side position ≠ side →
     0 < quantity →
     quantity < Trading.Position.quantity position →
     PositionStore.TradeResult.success (result call state h) = true ∧
     ∃ now tx,
       PositionStore.positions (exec call state h) !! j
         = Some (Trading.Position.mk
                   (Trading.Position.id position)
                   (Trading.Position.portfolioId position)
                   (Trading.Position.symbol position)
                   (Trading.Position.side position)
                   (Trading.Position.quantity position - quantity)
                   (Trading.Position.entryPrice position)
                   price
                   (Trading.Position.unrealizedPnL position)
                   (Trading.Position.unrealizedPnLPercent position)
                   (Trading.Position.createdAt position)
                   now) ∧
       length (PositionStore.positions (exec call state h))
         = length (PositionStore.positions state) ∧
       (∀ k other,
          PositionStore.positions state !! k = Some other →
          Trading.Position.id other ≠ Trading.Position.id position →
          PositionStore.positions (exec call state h) !! k = Some other) ∧
       PositionStore.transactions (exec call state h)
         = PositionStore.transactions state ++ [tx] ∧
       fill tx portfolioId symbol side quantity price).
Proof.
  split.
  - intros state h i p trade j pos Hactive Hsell Hhold _ Hlt.
    destruct (executeTrade_sell_reduce state h i p Hactive trade j pos
                Hsell Hhold Hlt) as (tx & h' & Htx & Heq).
    unfold result, exec. rewrite Heq. simpl. split; [done|].
    eexists (settle p _ _ tx), tx. split_and!; [|reflexivity..|done].
    by apply (active_replace state i p Hactive).
  - intros state h pid sym side q price type j e call Hfind Hside _ Hlt.
    destruct (position_executeTrade_reduce_at state h pid sym side q price type
                j e Hfind Hside Hlt)
      as (tx & now & ps & h' & Htx & Hj & Hlen & Hother & Heq).
    unfold result, exec, call. rewrite Heq. simpl. split; [done|].
    by exists now, tx.
Qed.

Lemma partial_close_preserves_entry_price_witness :
  ∃ remaining,
    PositionStore.positions
      (exec (PositionStore.executeTrade "p1" "BTC" Trading.sell
               (Q2Qc (1 # 2)) (num 55000) Trading.market)
            Positions.btcStore host0) !! 0%nat = Some remaining ∧
    Trading.Position.entryPrice remaining = num 50000.
Proof.
  destruct (proj2 partial_close_preserves_entry_price Positions.btcStore host0
              "p1" "BTC" Trading.sell (Q2Qc (1 # 2)) (num 55000) Trading.market
              0%nat Positions.btc eq_refl)
    as (_ & now & tx & Hj & _); [discriminate|reflexivity|reflexivity|].
  eexists. split; [exact Hj|reflexivity].
Defined.

(** C6 as stated fails on the position store for a sell against a
    position of the sell side: after a sell of 2 ETH at 3000 on the empty
    store, which opens such a position, a sell of 1 ETH at 2500 succeeds
    and is merged into it; the quantity becomes 2 + 1, not 2 − 1, and the
    entry price is averaged to (3000 × 2 + 2500 × 1) / (2 + 1), not left at
    3000. *)
Lemma position_store_sell_into_short_averages :
  (∃ short,
     PositionStore.positions
       (exec Positions.shortSale PositionStore.initialState host0) = [short] ∧
     Trading.Position.quantity short = num 2 ∧
     Trading.Position.entryPrice short = num 3000) ∧
  PositionStore.TradeResult.success
    (result Positions.sellIntoShort PositionStore.initialState host0) = true ∧
  ∃ remaining,
    PositionStore.positions
      (exec Positions.sellIntoShort PositionStore.initialState host0)
      = [remaining] ∧
    Trading.Position.quantity remaining = num 2 + num 1 ∧
    Trading.Position.entryPrice remaining
      = (num 3000 * num 2 + num 2500 * num 1) / (num 2 + num 1) ∧
    Trading.Position.quantity remaining ≠ num 2 - num 1 ∧
    Trading.Position.entryPrice remaining ≠ num 3000.
Proof.
  split_and!.
  - eexists. by split_and!.
  - reflexivity.
  - eexists. split; [reflexivity|]. cbn. split_and!; [done|done|..];
      intros Heq; apply (f_equal this) in Heq; vm_compute in Heq; discriminate.
Qed.

(** C5, on the position store. Selling exactly the 1 BTC that the store
    holds removes the position, and the transaction log receives two
    transactions for the one fill: the one that [executeTrade] records and
    the closing transaction that [closePosition] records; both are sells of
    1 BTC at 55000 for the same portfolio. *)
Theorem position_store_full_close_logs_twice :
  existing Positions.btcStore "p1" "BTC" = Some (0%nat, Positions.btc) ∧
  let after :=
    exec (PositionStore.executeTrade "p1" "BTC" Trading.sell
            (num 1) (num 55000) Trading.market)
         Positions.btcStore host0 in
  PositionStore.positions after = [] ∧
  ∃ tx closing,
    PositionStore.transactions after
      = PositionStore.transactions Positions.btcStore ++ [tx; closing] ∧
    fill tx "p1" "BTC" Trading.sell (num 1) (num 55000) ∧
    Trading.Transaction.portfolioId closing = "p1" ∧
    Trading.Transaction.symbol closing = "BTC" ∧
    Trading.Transaction.side closing = Trading.sell ∧
    Trading.Transaction.quantity closing = num 1 ∧
    Trading.Transaction.price closing = num 55000.
Proof.
  split; [reflexivity|]. intros after. subst after.
  destruct (position_executeTrade_close Positions.btcStore host0 "p1" "BTC"
              Trading.sell (num 1) (num 55000) Trading.market 0%nat Positions.btc)
    as (tx & closing & h' & Htx & Hq & Hp & Hid & Hsym & Hside & Heq).
  { repeat constructor. set_solver. }
  { reflexivity. }
  { discriminate. }
  { reflexivity. }
  unfold exec. rewrite Heq. simpl. split; [reflexivity|].
  by exists tx, closing.
Qed.

End close_claims.

Section fee_claim.
Import Ledger Book Examples.

(** C8, as the code has it. The trading fee rate constant is 0.001 (0.1%),
    not 0. Every [executeTrade] of the position store succeeds and records
    first a transaction whose fee is [quantity × price × 0.001] and whose
    total is the gross amount plus the fee for a buy and less the fee for a
    sell. The portfolio store applies no fee: a successful buy debits
    exactly [quantity × price] from the cash balance and a successful sell
    credits exactly [quantity × price]. *)
Theorem trading_fee_rate :
  Trading.DEFAULT_TRADING_FEE_PERCENT = 1 / num 1000 ∧
  (∀ state h portfolioId symbol side quantity price type,
     let call := PositionStore.executeTrade portfolioId symbol side
                   quantity price type in
     PositionStore.TradeResult.success (result call state h) = true ∧
     ∃ tx closing,
       PositionStore.transactions (exec call state h)
         = PositionStore.transactions state ++ tx :: closing ∧
       Trading.Transaction.fee tx
         = quantity * price * Trading.DEFAULT_TRADING_FEE_PERCENT ∧
       Trading.Transaction.total tx
         = (if decide (side = Trading.buy)
            then quantity * price + Trading.Transaction.fee tx
            else quantity * price - Trading.Transaction.fee tx)) ∧
  (∀ state h portfolioIndex portfolio trade,
     active state portfolioIndex portfolio →
     result (PortfolioStore.executeTrade trade) state h = true →
     ∃ portfolio',
       active (exec (PortfolioStore.executeTrade trade) state h)
              portfolioIndex portfolio' ∧
       PortfolioStore.Portfolio.balance portfolio'
         = match PortfolioStore.Trade.type trade with
           | PortfolioStore.buy =>
             PortfolioStore.Portfolio.balance portfolio
             - PortfolioStore.Trade.quantity trade * PortfolioStore.Trade.price trade
           | PortfolioStore.sell =>
             PortfolioStore.Portfolio.balance portfolio
             + PortfolioStore.Trade.quantity trade * PortfolioStore.Trade.price trade
           end).
Proof.
  split_and!.
  - apply Qc_is_canon. reflexivity.
  - intros state h pid sym side q price type call.
    destruct (position_executeTrade_records state h pid sym side q price type)
      as (Hok & tx & closing & Htx & Heq).
    split; [exact Hok|]. exists tx, closing.
    destruct Htx as (_ & _ & _ & _ & _ & Hfee & Htotal). by split_and!.
  - intros state h i p trade Hactive Hok.
    destruct (executeTrade_filled state h i p Hactive trade Hok)
      as (tx & positions' & _ & Heq & _).
    rewrite Heq. eexists (settle p _ _ tx). split; [|reflexivity].
    by apply (active_replace state i p Hactive).
Qed.

Lemma trading_fee_rate_witness :
  ∃ portfolio',
    active (exec (PortfolioStore.executeTrade (Portfolios.buyBTC 1 50000))
                 Portfolios.mainStore host0) 0 portfolio' ∧
    PortfolioStore.Portfolio.balance portfolio' = num 100000 - num 1 * num 50000.
Proof.
  assert (active Portfolios.mainStore 0 Portfolios.main)
    as Hactive by (split; reflexivity).
  destruct (proj2 (proj2 trading_fee_rate) Portfolios.mainStore host0 0%nat
              Portfolios.main (Portfolios.buyBTC 1 50000) Hactive eq_refl)
    as (p' & Hact & Hbal).
  by exists p'.
Defined.

(** C8 as stated fails: the constant is not 0, and the transaction that the
    position store records for a buy of 1 BTC at 50000 carries a fee of 50
    and a total of 50050. *)
Lemma trading_fee_is_not_zero :
  Trading.DEFAULT_TRADING_FEE_PERCENT ≠ 0 ∧
  ∃ tx,
    PositionStore.transactions
      (exec (PositionStore.executeTrade "p1" "BTC" Trading.buy
               (num 1) (num 50000) Trading.market)
            PositionStore.initialState host0) = [tx] ∧
    Trading.Transaction.fee tx = num 50 ∧
    Trading.Transaction.total tx = num 50050.
Proof.
  split; [done|].
  eexists. split; [vm_compute; reflexivity|].
  split; apply Qc_is_canon; reflexivity.
Qed.

End fee_claim.

Section value_claim.
Import Ledger Examples.

(** The terms of the analytics helper sum up in the same way. *)
Lemma calculatePortfolioValue_sum (cash : number)
    (positions : list Trading.Position.t) (prices : gmap string number) :
  Analytics.calculatePortfolioValue cash positions prices
  = cash + Qcsum ((λ p, Trading.Position.quantity p *
                        number_or (prices !! Trading.Position.symbol p)
                                  (Trading.Position.currentPrice p))
                    <$> positions).
Proof.
  unfold Analytics.calculatePortfolioValue, Analytics.calculatePositionValue.
  rewrite (foldl_Qcsum (λ p, Trading.Position.quantity p *
                             number_or (prices !! Trading.Position.symbol p)
                                       (Trading.Position.currentPrice p))).
  by rewrite Qcplus_0_l.
Qed.

(** C7, as the code has it. For every price map the value of a portfolio of
    the store is its cash balance plus the sum over its open positions of
    quantity × price, where the price is the one of the map when the map
    has a price for the symbol that is not zero, and the entry price of the
    position otherwise. The analytics helper computes the same sum from the
    cash and the positions it is given, with the cached current price of
    the position as the fallback. With no positions both return exactly the
    cash, whatever the price map. *)
Theorem portfolio_value :
  (∀ state portfolioId prices portfolioIndex portfolio,
     list_find (λ p, PortfolioStore.Portfolio.id p = portfolioId)
               (PortfolioStore.portfolios state)
       = Some (portfolioIndex, portfolio) →
     PortfolioStore.getPortfolioValue state portfolioId prices
       = PortfolioStore.Portfolio.balance portfolio
         + Qcsum ((λ p, PortfolioStore.Position.quantity p *
                        number_or (prices !! PortfolioStore.Position.symbol p)
                                  (PortfolioStore.Position.entryPrice p))
                    <$> PortfolioStore.Portfolio.positions portfolio) ∧
     (PortfolioStore.Portfolio.positions portfolio = [] →
      PortfolioStore.getPortfolioValue state portfolioId prices
        = PortfolioStore.Portfolio.balance portfolio)) ∧
  (∀ cash positions prices,
     Analytics.calculatePortfolioValue cash positions prices
     = cash + Qcsum ((λ p, Trading.Position.quantity p *
                           number_or (prices !! Trading.Position.symbol p)
                                     (Trading.Position.currentPrice p))
                       <$> positions)) ∧
  (∀ cash prices, Analytics.calculatePortfolioValue cash [] prices = cash).
Proof.
  split_and!.
  - intros state pid prices i p Hfind.
    rewrite (getPortfolioValue_found state pid prices i p Hfind).
    split; [done|]. intros Hnone. unfold marketValue. rewrite Hnone. simpl.
    by rewrite Qcplus_0_r.
  - apply calculatePortfolioValue_sum.
  - intros cash prices. rewrite calculatePortfolioValue_sum. simpl.
    by rewrite Qcplus_0_r.
Qed.

Lemma portfolio_value_witness :
  PortfolioStore.getPortfolioValue Portfolios.mainStore "portfolio_1" ∅
  = num 100000.
Proof.
  apply (proj2 (proj1 portfolio_value Portfolios.mainStore "portfolio_1" ∅
                  0%nat Portfolios.main eq_refl)).
  reflexivity.
Defined.

(** C7 as stated fails when the map prices a held symbol at zero: with
    1 BTC entered at 50000, 50000 in cash and BTC priced at 0 the store
    values the portfolio at 100000, the entry price standing in for the
    zero, where the stated sum gives 50000. *)
Lemma zero_price_falls_back_to_entry_price :
  PortfolioStore.getPortfolioValue Portfolios.holderStore "portfolio_1"
    {["BTC" := 0]} = num 100000 ∧
  statedValue Portfolios.holder {["BTC" := 0]} = num 50000 ∧
  PortfolioStore.getPortfolioValue Portfolios.holderStore "portfolio_1"
    {["BTC" := 0]}
  ≠ statedValue Portfolios.holder {["BTC" := 0]}.
Proof.
  assert (PortfolioStore.getPortfolioValue Portfolios.holderStore "portfolio_1"
            {["BTC" := 0]} = num 100000) as Hcode
    by (apply Qc_is_canon; vm_compute; reflexivity).
  assert (statedValue Portfolios.holder {["BTC" := 0]} = num 50000) as Hstated
    by (apply Qc_is_canon; vm_compute; reflexivity).
  split_and!; [done..|]. rewrite Hcode, Hstated. done.
Qed.

End value_claim.

(** ** Deleting portfolios *)

Section delete_claim.
Import PortfolioStore Ledger Examples.

(** The store that [deletePortfolio] leaves, by the portfolios that
    remain. *)
Lemma deletePortfolio_exec (state : PortfolioState) (h : Host)
    (portfolioId : string) :
  exec (deletePortfolio portfolioId) state h =
  match filter (λ p, Portfolio.id p ≠ portfolioId) (portfolios state) with
  | [] =>
    let defaultPortfolioId :=
      "portfolio" +:+ "_" +:+ pretty (clock h (calls h)) +:+ "_"
        +:+ entropy h (S (calls h)) in
    mkState
      [Portfolio.mk defaultPortfolioId "Default Portfolio"
         (num 100000) (num 100000) (num 100000) [] []
         (clock h (S (S (calls h))))]
      (Some defaultPortfolioId)
  | first :: rest =>
    mkState (first :: rest)
      (if decide (activePortfolioId state = Some portfolioId)
       then truthy_string (Some (Portfolio.id first))
       else activePortfolioId state)
  end.
Proof.
  unfold exec, deletePortfolio. unfold bind at 1. unfold get.
  by destruct (filter (λ p, Portfolio.id p ≠ portfolioId) (portfolios state)).
Qed.

(** C9. After [deletePortfolio] on an initialized store (ids are not
    empty and the active id is the id of a portfolio) the store is
    initialized again: at least one portfolio exists and the active id is
    the id of one of them. When no portfolio remains, the store holds one
    new portfolio named "Default Portfolio" with 100000 in cash, no
    positions and no transactions, and it is the active one. When others
    remain, they are the store; the active id moves to the first of them if
    the deleted portfolio was the active one and stays otherwise. *)
Theorem deletePortfolio_keeps_an_active_portfolio
    (state : PortfolioState) (h : Host) (portfolioId : string) :
  initialized state →
  let state' := exec (deletePortfolio portfolioId) state h in
  let remaining :=
    filter (λ p, Portfolio.id p ≠ portfolioId) (portfolios state) in
  initialized state' ∧
  portfolios state' ≠ [] ∧
  (remaining = [] →
   ∃ defaultPortfolio,
     state' = mkState [defaultPortfolio] (Some (Portfolio.id defaultPortfolio)) ∧
     Portfolio.name defaultPortfolio = "Default Portfolio" ∧
     Portfolio.balance defaultPortfolio = num 100000 ∧
     Portfolio.currentBalance defaultPortfolio = num 100000 ∧
     Portfolio.initialBalance defaultPortfolio = num 100000 ∧
     Portfolio.positions defaultPortfolio = [] ∧
     Portfolio.transactions defaultPortfolio = []) ∧
  (∀ first rest,
     remaining = first :: rest →
     portfolios state' = first :: rest ∧
     (activePortfolioId state = Some portfolioId →
      activePortfolioId state' = Some (Portfolio.id first)) ∧
     (activePortfolioId state ≠ Some portfolioId →
      activePortfolioId state' = activePortfolioId state)).
Proof.
  intros [Hids Hactive] state' remaining. subst state' remaining.
  assert (Forall (λ p, Portfolio.id p ≠ "")
            (filter (λ p, Portfolio.id p ≠ portfolioId) (portfolios state)))
    as Hrem.
  { apply Forall_forall. intros p [_ Hp]%list_elem_of_filter.
    by apply (proj1 (Forall_forall _ _) Hids). }
  rewrite deletePortfolio_exec.
  destruct (filter (λ p, Portfolio.id p ≠ portfolioId) (portfolios state))
    as [|first rest] eqn:Hremaining.
  - simpl.
    split_and!.
    + split; repeat constructor. simpl. discriminate.
    + done.
    + intros _. eexists (Portfolio.mk _ _ _ _ _ _ _ _). by split_and!.
    + intros first rest Hcons. discriminate.
  - apply Forall_cons in Hrem as [Hfirst Hrest].
    assert (truthy_string (Some (Portfolio.id first)) = Some (Portfolio.id first))
      as Htruthy by (simpl; by rewrite decide_False).
    split_and!.
    + split; cbn [portfolios activePortfolioId]; [by constructor|].
      destruct (decide (activePortfolioId state = Some portfolioId)) as [Ha|Ha].
      * rewrite Htruthy. by constructor.
      * apply Exists_exists in Hactive as (p & Hp & Hpa).
        apply Exists_exists. exists p. split; [|done].
        rewrite <- Hremaining. apply list_elem_of_filter. split; [|done].
        intros Heq. apply Ha. by rewrite Hpa, Heq.
    + done.
    + discriminate.
    + intros first' rest' Hcons. simplify_eq. split_and!; [done|..].
      * intros Ha. rewrite decide_True by done. exact Htruthy.
      * intros Ha. by rewrite decide_False.
Qed.

Lemma deletePortfolio_keeps_an_active_portfolio_witness :
  initialized (exec (deletePortfolio "portfolio_1") Portfolios.twoStore host0) ∧
  initialized (exec (deletePortfolio "portfolio_1") Portfolios.mainStore host0).
Proof.
  split.
  - apply (deletePortfolio_keeps_an_active_portfolio Portfolios.twoStore host0
             "portfolio_1").
    split; repeat constructor; discriminate.
  - apply (deletePortfolio_keeps_an_active_portfolio Portfolios.mainStore host0
             "portfolio_1").
    split; repeat constructor; discriminate.
Defined.

End delete_claim.

(** ** Conservation *)

Section conservation.
Import PortfolioStore Ledger Examples.






End conservation.

(** * Further properties of the portfolio store *)

Section portfolio_management.
Import PortfolioStore Ledger Examples.

(** The store that [createPortfolio] leaves and the id it returns. *)
Lemma createPortfolio_run (name : string) (state : PortfolioState) (h : Host) :
  let portfolioId :=
    "portfolio" +:+ "_" +:+ pretty (clock h (calls h)) +:+ "_"
      +:+ entropy h (S (calls h)) in
  createPortfolio name state h =
    (portfolioId,
     mkState
       (portfolios state ++
          [Portfolio.mk portfolioId name (num 100000) (num 100000) (num 100000)
             [] [] (clock h (S (S (calls h))))])
       (match truthy_string (activePortfolioId state) with
        | Some a => Some a
        | None => Some portfolioId
        end),
     advance (advance (advance h))).
Proof. reflexivity. Qed.

(** X1. [createPortfolio] appends one portfolio and returns its id: the
    portfolio carries the name, 100000 as cash and as initial balance, no
    positions and no transactions, and the earlier portfolios are untouched.
    On a store without an active id the new portfolio becomes the active
    one; on an initialized store the active id stays and the store remains
    initialized. *)
Theorem createPortfolio_appends_fresh (name : string) (state : PortfolioState)
    (h : Host) :
  let portfolioId := result (createPortfolio name) state h in
  let state' := exec (createPortfolio name) state h in
  (∃ portfolio,
     portfolios state' = portfolios state ++ [portfolio] ∧
     Portfolio.id portfolio = portfolioId ∧
     portfolioId ≠ "" ∧
     Portfolio.name portfolio = name ∧
     Portfolio.balance portfolio = num 100000 ∧
     Portfolio.currentBalance portfolio = num 100000 ∧
     fresh portfolio) ∧
  (activePortfolioId state = None → activePortfolioId state' = Some portfolioId) ∧
  (initialized state →
   initialized state' ∧ activePortfolioId state' = activePortfolioId state).
Proof.
  intros portfolioId state'. subst portfolioId state'.
  unfold result, exec. rewrite createPortfolio_run. cbn [fst snd].
  split_and!.
  - eexists (Portfolio.mk _ _ _ _ _ _ _ _).
    split_and!; [reflexivity|reflexivity|discriminate|reflexivity..|by split_and!].
  - intros Hnone. cbn [activePortfolioId]. by rewrite Hnone.
  - intros [Hids Hactive]. cbn [activePortfolioId portfolios].
    apply Exists_exists in Hactive as (p & Hp & Hpa).
    assert (truthy_string (activePortfolioId state) = activePortfolioId state)
      as Htruthy.
    { rewrite Hpa. simpl. rewrite decide_False; [done|].
      by apply (proj1 (Forall_forall _ _) Hids). }
    rewrite Htruthy, Hpa. split; [|done]. split; cbn [activePortfolioId portfolios].
    + apply Forall_app. split; [done|]. repeat constructor. simpl. discriminate.
    + apply Exists_app. left. apply Exists_exists. by exists p.
Qed.

Lemma createPortfolio_appends_fresh_witness :
  initialized (exec (createPortfolio "Second") Portfolios.mainStore host0) ∧
  activePortfolioId (exec (createPortfolio "Main Portfolio") initialState host0)
  = Some (result (createPortfolio "Main Portfolio") initialState host0).
Proof.
  split.
  - apply (createPortfolio_appends_fresh "Second" Portfolios.mainStore host0).
    split; repeat constructor; discriminate.
  - by apply (createPortfolio_appends_fresh "Main Portfolio" initialState host0).
Defined.

(** X2. [setActivePortfolio] with an id that no portfolio carries changes
    nothing; with the id of a portfolio it makes that id the active one and
    leaves the portfolios as they are. *)
Theorem setActivePortfolio_known_id_only (portfolioId : string)
    (state : PortfolioState) (h : Host) :
  (Forall (λ p, Portfolio.id p ≠ portfolioId) (portfolios state) →
   setActivePortfolio portfolioId state h = (tt, state, h)) ∧
  (Exists (λ p, Portfolio.id p = portfolioId) (portfolios state) →
   setActivePortfolio portfolioId state h
   = (tt, mkState (portfolios state) (Some portfolioId), h)).
Proof.
  split.
  - intros Hall.
    assert (existsb (λ p, bool_decide (Portfolio.id p = portfolioId))
                    (portfolios state) = false) as Hex.
    { apply not_true_is_false. intros (p & Hp & Hid)%existsb_exists.
      apply bool_decide_eq_true in Hid.
      apply (proj1 (Forall_forall _ _) Hall p); [|done].
      by apply list_elem_of_In. }
    unfold setActivePortfolio, bind, get. cbv beta zeta. by rewrite Hex.
  - intros (p & Hp & Hid)%Exists_exists.
    assert (existsb (λ p, bool_decide (Portfolio.id p = portfolioId))
                    (portfolios state) = true) as Hex.
    { apply existsb_exists. exists p. split; [by apply list_elem_of_In|].
      by apply bool_decide_eq_true. }
    unfold setActivePortfolio, bind, get. cbv beta zeta. by rewrite Hex.
Qed.

Lemma setActivePortfolio_known_id_only_witness :
  setActivePortfolio "non-existent-id" Portfolios.twoStore host0
  = (tt, Portfolios.twoStore, host0) ∧
  setActivePortfolio "portfolio_2" Portfolios.twoStore host0
  = (tt, mkState [Portfolios.main; Portfolios.second] (Some "portfolio_2"), host0).
Proof.
  split.
  - apply (setActivePortfolio_known_id_only "non-existent-id" Portfolios.twoStore).
    repeat constructor; discriminate.
  - apply (setActivePortfolio_known_id_only "portfolio_2" Portfolios.twoStore).
    apply Exists_cons_tl, Exists_cons_hd. reflexivity.
Defined.

(** X3. On an initialized store, deleting an id that no portfolio carries
    changes nothing. *)
Theorem deletePortfolio_unknown_id (portfolioId : string)
    (state : PortfolioState) (h : Host) :
  initialized state →
  Forall (λ p, Portfolio.id p ≠ portfolioId) (portfolios state) →
  exec (deletePortfolio portfolioId) state h = state.
Proof.
  intros [Hids Hactive] Hall. rewrite deletePortfolio_exec.
  assert (filter (λ p, Portfolio.id p ≠ portfolioId) (portfolios state)
          = portfolios state) as ->.
  { clear Hids Hactive. induction Hall as [|p l Hp _ IH]; [done|].
    rewrite filter_cons_True by done. by rewrite IH. }
  apply Exists_exists in Hactive as (p & Hp & Hpa).
  destruct (portfolios state) as [|first rest] eqn:Hportfolios.
  { by apply elem_of_nil in Hp. }
  rewrite decide_False.
  - destruct state. simpl in *. by subst.
  - rewrite Hpa. intros [= Heq].
    by apply (proj1 (Forall_forall _ _) Hall p).
Qed.

Lemma deletePortfolio_unknown_id_witness :
  exec (deletePortfolio "non-existent-id") Portfolios.twoStore host0
  = Portfolios.twoStore.
Proof.
  apply (deletePortfolio_unknown_id "non-existent-id" Portfolios.twoStore host0).
  - split; repeat constructor; discriminate.
  - repeat constructor; discriminate.
Defined.

(** On an initialized store [createPortfolio] appends a portfolio under
    the returned id and leaves the active id as it is. *)
Lemma createPortfolio_on_initialized (name : string) (state : PortfolioState)
    (h : Host) :
  initialized state →
  (∃ portfolio,
     portfolios (exec (createPortfolio name) state h)
       = portfolios state ++ [portfolio] ∧
     Portfolio.id portfolio = result (createPortfolio name) state h) ∧
  activePortfolioId (exec (createPortfolio name) state h)
    = activePortfolioId state.
Proof.
  intros [Hids Hactive].
  unfold result, exec. rewrite createPortfolio_run. cbn [fst snd].
  split.
  - eexists (Portfolio.mk _ _ _ _ _ _ _ _). by split.
  - cbn [activePortfolioId].
    apply Exists_exists in Hactive as (p & Hp & Hpa).
    rewrite Hpa. simpl. rewrite decide_False; [done|].
    by apply (proj1 (Forall_forall _ _) Hids).
Qed.

(** X4. On an initialized store (no portfolio id is empty and the active
    id is the id of a portfolio of the store), creating a portfolio and
    deleting it again by the returned id restores the store, provided the
    generated id is not already the id of a portfolio. *)
Theorem create_then_delete_restores (name : string) (state : PortfolioState)
    (h : Host) :
  initialized state →
  Forall (λ p, Portfolio.id p ≠ result (createPortfolio name) state h)
         (portfolios state) →
  exec (deletePortfolio (result (createPortfolio name) state h))
       (exec (createPortfolio name) state h)
       (hostAfter (createPortfolio name) state h)
  = state.
Proof.
  intros Hinit Hnew.
  destruct (createPortfolio_on_initialized name state h Hinit)
    as ((p & Hps & Hid) & Hactive).
  destruct Hinit as [Hids Hexists].
  rewrite deletePortfolio_exec.
  set (newId := result (createPortfolio name) state h) in *.
  rewrite Hps, filter_app.
  assert (filter (λ q, Portfolio.id q ≠ newId) (portfolios state)
          = portfolios state) as ->.
  { clear Hids Hexists Hps. induction Hnew as [|q l Hq _ IH]; [done|].
    rewrite filter_cons_True by done. by rewrite IH. }
  rewrite filter_cons_False by (intros Hne; by apply Hne).
  rewrite filter_nil, app_nil_r.
  apply Exists_exists in Hexists as (q & Hq & Hqa).
  destruct (portfolios state) as [|first rest] eqn:Hportfolios.
  { by apply elem_of_nil in Hq. }
  rewrite Hactive. rewrite decide_False.
  - destruct state. simpl in *. by subst.
  - rewrite Hqa. intros [= Heq].
    by apply (proj1 (Forall_forall _ _) Hnew q).
Qed.

Lemma create_then_delete_restores_witness :
  exec (deletePortfolio (result (createPortfolio "Second") Portfolios.mainStore host0))
       (exec (createPortfolio "Second") Portfolios.mainStore host0)
       (hostAfter (createPortfolio "Second") Portfolios.mainStore host0)
  = Portfolios.mainStore.
Proof.
  apply (create_then_delete_restores "Second" Portfolios.mainStore host0).
  - split; repeat constructor; discriminate.
  - repeat constructor. vm_compute. discriminate.
Defined.

End portfolio_management.

Section portfolio_trading.
Import PortfolioStore Ledger Examples.

(** With distinct keys, a search by the key of an element finds it. *)
Lemma list_find_key {A K : Type} `{EqDecision K} (key : A → K) (l : list A)
    (j : nat) (e : A) :
  NoDup (key <$> l) →
  l !! j = Some e →
  list_find (λ x, key x = key e) l = Some (j, e).
Proof.
  intros Hnodup Hj. apply list_find_Some. split_and!; [done..|].
  intros k y Hk Hlt Heq.
  assert (k = j); [|lia].
  eapply (NoDup_lookup _ _ _ _ Hnodup).
  - rewrite list_lookup_fmap, Hk. simpl. by rewrite Heq.
  - by rewrite list_lookup_fmap, Hj.
Qed.

(** X5. Without an active portfolio nothing is traded: when the active id
    is absent or empty, or names no portfolio of the store, [executeTrade]
    and [closePosition] return [false] and leave store and host as they
    were. *)
Theorem no_active_portfolio_no_trade (state : PortfolioState) (h : Host)
    (trade : Trade.t) (positionId : string) (currentPrice : number) :
  (truthy_string (activePortfolioId state) = None ∨
   ∃ a, activePortfolioId state = Some a ∧
        Forall (λ p, Portfolio.id p ≠ a) (portfolios state)) →
  executeTrade trade state h = (false, state, h) ∧
  closePosition positionId currentPrice state h = (false, state, h).
Proof.
  intros [Hnone|(a & Ha & Hall)].
  - unfold executeTrade, closePosition, bind, get. by rewrite Hnone.
  - assert (list_find (λ p, Portfolio.id p = a) (portfolios state) = None)
      as Hfind by (by apply list_find_None).
    unfold executeTrade, closePosition, bind, get. rewrite Ha. simpl.
    destruct (decide (a = "")); [done|]. by rewrite Hfind.
Qed.

Lemma no_active_portfolio_no_trade_witness :
  executeTrade (Portfolios.buyBTC 1 100) initialState host0
  = (false, initialState, host0) ∧
  closePosition "pos_1" (num 100) initialState host0
  = (false, initialState, host0).
Proof.
  apply (no_active_portfolio_no_trade initialState host0). by left.
Defined.

(** X6. A successful trade touches the active portfolio only: the number of
    portfolios and the active id stay, every other portfolio is the one it
    was, and the traded portfolio keeps its id, name, initial balance and
    creation time, with [currentBalance] equal to [balance]. *)
Theorem executeTrade_frame (state : PortfolioState) (h : Host)
    (portfolioIndex : nat) (portfolio : Portfolio.t) (trade : Trade.t) :
  active state portfolioIndex portfolio →
  result (executeTrade trade) state h = true →
  let state' := exec (executeTrade trade) state h in
  length (portfolios state') = length (portfolios state) ∧
  activePortfolioId state' = activePortfolioId state ∧
  (∀ k, k ≠ portfolioIndex → portfolios state' !! k = portfolios state !! k) ∧
  ∃ portfolio',
    portfolios state' !! portfolioIndex = Some portfolio' ∧
    Portfolio.id portfolio' = Portfolio.id portfolio ∧
    Portfolio.name portfolio' = Portfolio.name portfolio ∧
    Portfolio.initialBalance portfolio' = Portfolio.initialBalance portfolio ∧
    Portfolio.createdAt portfolio' = Portfolio.createdAt portfolio ∧
    Portfolio.currentBalance portfolio' = Portfolio.balance portfolio'.
Proof.
  intros Hactive Hok state'. subst state'.
  destruct (executeTrade_filled state h _ _ Hactive trade Hok)
    as (tx & positions' & _ & Heq & _).
  rewrite Heq. unfold replacePortfolio. cbn [portfolios activePortfolioId].
  destruct Hactive as [_ (Hi & _ & _)%list_find_Some].
  split_and!.
  - by rewrite length_insert.
  - done.
  - intros k Hk. by rewrite list_lookup_insert_ne.
  - eexists (settle portfolio _ positions' tx). split_and!; [|reflexivity..].
    apply list_lookup_insert_eq. by eapply lookup_lt_Some.
Qed.

Lemma executeTrade_frame_witness :
  portfolios (exec (executeTrade (Portfolios.buyBTC 1 100)) Portfolios.twoStore host0)
    !! 1%nat = Some Portfolios.second.
Proof.
  assert (active Portfolios.twoStore 0 Portfolios.main)
    as Hactive by (split; reflexivity).
  destruct (executeTrade_frame Portfolios.twoStore host0 0 Portfolios.main
              (Portfolios.buyBTC 1 100) Hactive eq_refl) as (_ & _ & Hother & _).
  rewrite (Hother 1%nat); [reflexivity|discriminate].
Defined.

End portfolio_trading.

Section portfolio_positions.
Import PortfolioStore Ledger Examples.

Lemma holding_lookup (portfolio : Portfolio.t) (symbol : string) (j : nat)
    (e : Position.t) :
  holding portfolio symbol = Some (j, e) →
  Portfolio.positions portfolio !! j = Some e ∧ Position.symbol e = symbol.
Proof. intros (Hj & Hsym & _)%list_find_Some. done. Qed.

Lemma holding_none (portfolio : Portfolio.t) (symbol : string) :
  holding portfolio symbol = None →
  symbol ∉ Position.symbol <$> Portfolio.positions portfolio.
Proof.
  intros Hnone%list_find_None (p & Hsym & Hp)%list_elem_of_fmap.
  by apply (proj1 (Forall_forall _ _) Hnone p).
Qed.

(** Rewriting a position without touching its symbol keeps the symbols. *)
Lemma symbols_insert (l : list Position.t) (j : nat) (e e' : Position.t) :
  l !! j = Some e →
  Position.symbol e' = Position.symbol e →
  Position.symbol <$> <[j:=e']> l = Position.symbol <$> l.
Proof.
  intros Hj Hsym. rewrite list_fmap_insert, Hsym.
  apply list_insert_id. by rewrite list_lookup_fmap, Hj.
Qed.

Lemma NoDup_without_middle {A} (l k : list A) (x : A) :
  NoDup (l ++ x :: k) → NoDup (l ++ k).
Proof.
  intros (Hl & Hdisjoint & [_ Hk]%NoDup_cons)%NoDup_app.
  apply NoDup_app. split_and!; [done| |done].
  intros y Hy Hyk. apply (Hdisjoint y Hy). by apply list_elem_of_further.
Qed.

(** X7. Successful trades of positive quantity keep the position set well
    formed: if the open positions of the active portfolio have distinct
    symbols and positive quantities before the trade, they have so after
    it. No second position is ever opened in a symbol and no position of
    quantity zero is retained. *)
Theorem executeTrade_keeps_positions_well_formed (state : PortfolioState)
    (h : Host) (portfolioIndex : nat) (portfolio : Portfolio.t)
    (trade : Trade.t) :
  active state portfolioIndex portfolio →
  NoDup (Position.symbol <$> Portfolio.positions portfolio) →
  Forall (λ p, 0 < Position.quantity p) (Portfolio.positions portfolio) →
  0 < Trade.quantity trade →
  result (executeTrade trade) state h = true →
  ∃ portfolio',
    active (exec (executeTrade trade) state h) portfolioIndex portfolio' ∧
    NoDup (Position.symbol <$> Portfolio.positions portfolio') ∧
    Forall (λ p, 0 < Position.quantity p) (Portfolio.positions portfolio').
Proof.
  intros Hactive Hnodup Hpos Hq Hok.
  destruct (executeTrade_filled state h _ _ Hactive trade Hok)
    as (tx & positions' & _ & Heq & Hcases).
  rewrite Heq. eexists (settle portfolio _ positions' tx).
  split; [by apply (active_replace state _ _ Hactive)|].
  cbn [settle Portfolio.positions].
  destruct (Trade.type trade);
    destruct (holding portfolio (Trade.symbol trade)) as [[j e]|] eqn:Hhold;
    try done.
  - destruct (holding_lookup _ _ _ _ Hhold) as [Hj Hsym]. subst positions'.
    split.
    + by rewrite (symbols_insert _ j e _ Hj).
    + apply Forall_insert; [done|]. simpl. apply Qcplus_pos_pos; [|done].
      by apply (proj1 (Forall_lookup _ _) Hpos j e).
  - destruct Hcases as (posId & entryTime & ->). split.
    + rewrite fmap_app. apply NoDup_app. split_and!; [done| |].
      * intros s Hs ->%list_elem_of_singleton. by apply (holding_none _ _ Hhold).
      * apply NoDup_singleton.
    + apply Forall_app. split; [done|]. by repeat constructor.
  - destruct (holding_lookup _ _ _ _ Hhold) as [Hj Hsym].
    destruct Hcases as (Hle & ->).
    destruct (decide (Position.quantity e = Trade.quantity trade)) as [_|Hne].
    + split.
      * rewrite <- (take_drop_middle _ j e Hj) in Hnodup.
        rewrite delete_take_drop.
        rewrite fmap_app in *. rewrite fmap_cons in Hnodup.
        by apply NoDup_without_middle in Hnodup.
      * by apply Forall_delete.
    + split.
      * by rewrite (symbols_insert _ j e _ Hj).
      * apply Forall_insert; [done|]. simpl.
        destruct (Qcle_lt_or_eq _ _ Hle) as [Hlt|Heq'].
        -- exact (proj1 (Qclt_minus_iff _ _) Hlt).
        -- by destruct Hne.
Qed.

Lemma executeTrade_keeps_positions_well_formed_witness :
  ∃ portfolio',
    active (exec (executeTrade (Portfolios.buyBTC 1 40000))
                 Portfolios.holderStore host0) 0 portfolio' ∧
    NoDup (Position.symbol <$> Portfolio.positions portfolio').
Proof.
  assert (active Portfolios.holderStore 0 Portfolios.holder)
    as Hactive by (split; reflexivity).
  destruct (executeTrade_keeps_positions_well_formed Portfolios.holderStore
              host0 0 Portfolios.holder (Portfolios.buyBTC 1 40000) Hactive)
    as (p' & Hp' & Hnodup & _).
  - simpl. apply NoDup_singleton.
  - repeat constructor.
  - reflexivity.
  - reflexivity.
  - by exists p'.
Defined.

(** X8. In the portfolio store a sell of exactly the quantity held always
    succeeds: the position is removed from the list, the cash balance gains
    [quantity × price], exactly one transaction, the sell, is appended, and
    with distinct symbols no position in the symbol remains. *)
Theorem portfolio_full_close (state : PortfolioState) (h : Host)
    (portfolioIndex : nat) (portfolio : Portfolio.t) (trade : Trade.t)
    (j : nat) (position : Position.t) :
  active state portfolioIndex portfolio →
  Trade.type trade = sell →
  holding portfolio (Trade.symbol trade) = Some (j, position) →
  Position.quantity position = Trade.quantity trade →
  result (executeTrade trade) state h = true ∧
  ∃ portfolio' tx,
    active (exec (executeTrade trade) state h) portfolioIndex portfolio' ∧
    Portfolio.positions portfolio' = delete j (Portfolio.positions portfolio) ∧
    Portfolio.balance portfolio'
      = Portfolio.balance portfolio + Trade.quantity trade * Trade.price trade ∧
    Portfolio.transactions portfolio' = Portfolio.transactions portfolio ++ [tx] ∧
    records tx trade portfolio ∧
    (NoDup (Position.symbol <$> Portfolio.positions portfolio) →
     holding portfolio' (Trade.symbol trade) = None).
Proof.
  intros Hactive Hsell Hhold Hq.
  destruct (executeTrade_sell_close state h _ _ Hactive trade j position
              Hsell Hhold Hq) as (tx & h' & Htx & Heq).
  unfold result, exec. rewrite Heq. cbn [fst snd]. split; [done|].
  eexists (settle portfolio _ _ tx), tx.
  split_and!; [by apply (active_replace state _ _ Hactive)|reflexivity..|done|].
  intros Hnodup. unfold holding. cbn [settle Portfolio.positions].
  destruct (holding_lookup _ _ _ _ Hhold) as [Hj Hsym].
  apply list_find_None, Forall_forall. intros p Hp Hps.
  rewrite <- (take_drop_middle _ j position Hj) in Hnodup.
  rewrite fmap_app, fmap_cons in Hnodup.
  apply NoDup_app in Hnodup as (_ & Hdisjoint & Hrest).
  apply NoDup_cons in Hrest as [Hnotin _].
  rewrite delete_take_drop in Hp. apply elem_of_app in Hp as [Hp|Hp].
  - apply (Hdisjoint (Position.symbol p)); [by apply list_elem_of_fmap_2|].
    rewrite Hps, <- Hsym. apply list_elem_of_here.
  - apply Hnotin. rewrite Hsym, <- Hps. by apply list_elem_of_fmap_2.
Qed.

Lemma portfolio_full_close_witness :
  result (executeTrade (Portfolios.sellBTC 1 55000)) Portfolios.holderStore host0
  = true.
Proof.
  assert (active Portfolios.holderStore 0 Portfolios.holder)
    as Hactive by (split; reflexivity).
  apply (portfolio_full_close Portfolios.holderStore host0 0 Portfolios.holder
           (Portfolios.sellBTC 1 55000) 0 Portfolios.btc Hactive);
    reflexivity.
Defined.

End portfolio_positions.

Section portfolio_round_trips.
Import PortfolioStore Ledger Examples.

(** X9. [closePosition] of the portfolio store sells the whole position
    that carries the id: with distinct symbols in the active portfolio it
    succeeds, removes that position, credits [quantity × currentPrice] to
    the cash balance and appends one transaction. For an id that no
    position of the active portfolio carries it returns [false] and changes
    nothing. *)
Theorem closePosition_sells_whole_position (state : PortfolioState) (h : Host)
    (portfolioIndex : nat) (portfolio : Portfolio.t) (positionId : string)
    (currentPrice : number) :
  active state portfolioIndex portfolio →
  (list_find (λ p, Position.id p = positionId) (Portfolio.positions portfolio)
     = None →
   closePosition positionId currentPrice state h = (false, state, h)) ∧
  (∀ k position,
     list_find (λ p, Position.id p = positionId) (Portfolio.positions portfolio)
       = Some (k, position) →
     NoDup (Position.symbol <$> Portfolio.positions portfolio) →
     result (closePosition positionId currentPrice) state h = true ∧
     ∃ portfolio' tx,
       active (exec (closePosition positionId currentPrice) state h)
              portfolioIndex portfolio' ∧
       Portfolio.positions portfolio' = delete k (Portfolio.positions portfolio) ∧
       Portfolio.balance portfolio'
         = Portfolio.balance portfolio + Position.quantity position * currentPrice ∧
       Portfolio.transactions portfolio'
         = Portfolio.transactions portfolio ++ [tx] ∧
       Transaction.type tx = sell ∧
       Transaction.quantity tx = Position.quantity position ∧
       Transaction.price tx = currentPrice).
Proof.
  intros Hactive. pose proof Hactive as [Hid Hfind]. split.
  - intros Hnone. unfold closePosition, bind, get. by rewrite Hid, Hfind, Hnone.
  - intros k position Hpos Hnodup.
    assert (closePosition positionId currentPrice state h
            = executeTrade (Trade.mk (Position.symbol position) sell
                              (Position.quantity position) currentPrice) state h)
      as Hclose.
    { unfold closePosition. unfold bind at 1. unfold get.
      by rewrite Hid, Hfind, Hpos. }
    apply list_find_Some in Hpos as (Hk & _ & _).
    pose proof (list_find_key Position.symbol _ k position Hnodup Hk) as Hhold.
    destruct (executeTrade_sell_close state h _ _ Hactive
                (Trade.mk (Position.symbol position) sell
                   (Position.quantity position) currentPrice)
                k position eq_refl Hhold eq_refl)
      as (tx & h' & (_ & Htype & Htq & Htp & _) & Heq).
    unfold result, exec. rewrite Hclose, Heq. cbn [fst snd]. split; [done|].
    eexists (settle portfolio _ _ tx), tx.
    split_and!; [by apply (active_replace state _ _ Hactive)|reflexivity..|done|done|done].
Qed.

Lemma closePosition_sells_whole_position_witness :
  closePosition "pos_9" (num 55000) Portfolios.holderStore host0
  = (false, Portfolios.holderStore, host0) ∧
  result (closePosition "pos_1" (num 55000)) Portfolios.holderStore host0 = true.
Proof.
  assert (active Portfolios.holderStore 0 Portfolios.holder)
    as Hactive by (split; reflexivity).
  split.
  - by apply (closePosition_sells_whole_position Portfolios.holderStore host0 0
                Portfolios.holder "pos_9" (num 55000) Hactive).
  - apply (proj2 (closePosition_sells_whole_position Portfolios.holderStore host0
                    0 Portfolios.holder "pos_1" (num 55000) Hactive)
             0%nat Portfolios.btc eq_refl).
    simpl. apply NoDup_singleton.
Defined.



End portfolio_round_trips.


Section portfolio_balance.
Import PortfolioStore Ledger Examples.

(** X13. After [updatePortfolioBalance], [getPortfolio] returns the
    portfolio with the amount added to its cash: [balance] and
    [currentBalance] are both the earlier [balance] plus the amount,
    whatever [currentBalance] was and also when the sum is negative
    (nothing guards it); the initial balance, the positions and the
    transactions are as before. An update for an id that no portfolio
    carries changes nothing. *)
Theorem updatePortfolioBalance_then_lookup (portfolioId : string)
    (amount : number) (state : PortfolioState) (h : Host) :
  (∀ i portfolio,
     list_find (λ p, Portfolio.id p = portfolioId) (portfolios state)
       = Some (i, portfolio) →
     ∃ updated,
       getPortfolio (exec (updatePortfolioBalance portfolioId amount) state h)
                    portfolioId = Some updated ∧
       Portfolio.balance updated = Portfolio.balance portfolio + amount ∧
       Portfolio.currentBalance updated = Portfolio.balance portfolio + amount ∧
       Portfolio.initialBalance updated = Portfolio.initialBalance portfolio ∧
       Portfolio.positions updated = Portfolio.positions portfolio ∧
       Portfolio.transactions updated = Portfolio.transactions portfolio) ∧
  (Forall (λ p, Portfolio.id p ≠ portfolioId) (portfolios state) →
   exec (updatePortfolioBalance portfolioId amount) state h = state).
Proof.
  unfold getPortfolio, exec, updatePortfolioBalance, set.
  cbn [fst snd portfolios activePortfolioId].
  split.
  - intros i portfolio Hfind. rewrite list_find_fmap.
    erewrite (list_find_ext _ (λ p, Portfolio.id p = portfolioId)).
    + rewrite Hfind. apply list_find_Some in Hfind as (_ & Hid & _).
      cbn. rewrite (decide_True _ _ Hid). by eexists.
    + intros p. simpl. by destruct (decide (Portfolio.id p = portfolioId)).
  - intros Hall. destruct state as [l active]. simpl in *. f_equal.
    induction Hall as [|p l Hp _ IH]; [done|].
    rewrite fmap_cons, IH. by rewrite decide_False.
Qed.

Lemma updatePortfolioBalance_then_lookup_witness :
  exec (updatePortfolioBalance "non-existent" (num 5000)) Portfolios.mainStore host0
  = Portfolios.mainStore ∧
  ∃ updated,
    getPortfolio (exec (updatePortfolioBalance "portfolio_1" (num 5000))
                       Portfolios.mainStore host0) "portfolio_1" = Some updated ∧
    Portfolio.balance updated = num 100000 + num 5000.
Proof.
  split.
  - apply (updatePortfolioBalance_then_lookup "non-existent" (num 5000)
             Portfolios.mainStore host0).
    repeat constructor. discriminate.
  - destruct (proj1 (updatePortfolioBalance_then_lookup "portfolio_1"
                       (num 5000) Portfolios.mainStore host0)
                0%nat Portfolios.main eq_refl)
      as (updated & Hget & Hbalance & _).
    by exists updated.
Defined.

End portfolio_balance.

(** * Further properties of the position store *)

Section position_lookup.
Import Trading PositionStore Book Examples.

(** X14. [addPosition] appends and never replaces. When the portfolio has
    no position in the symbol, [getPositionBySymbol] afterwards returns the
    added position, which carries the returned id and the given data; when
    it has one, the lookup keeps returning that earlier position and the
    added one is shadowed. *)
Theorem addPosition_then_lookup (positionData : PositionData.t)
    (state : PositionStoreState) (h : Host) :
  let portfolioId := PositionData.portfolioId positionData in
  let symbol := PositionData.symbol positionData in
  let state' := exec (addPosition positionData) state h in
  length (positions state') = S (length (positions state)) ∧
  (getPositionBySymbol state portfolioId symbol = None →
   ∃ added,
     getPositionBySymbol state' portfolioId symbol = Some added ∧
     Position.id added = result (addPosition positionData) state h ∧
     Position.side added = PositionData.side positionData ∧
     Position.quantity added = PositionData.quantity positionData ∧
     Position.entryPrice added = PositionData.entryPrice positionData ∧
     Position.createdAt added = Position.updatedAt added) ∧
  (∀ earlier,
     getPositionBySymbol state portfolioId symbol = Some earlier →
     getPositionBySymbol state' portfolioId symbol = Some earlier).
Proof.
  intros portfolioId symbol state'. subst portfolioId symbol state'.
  unfold exec, result, addPosition, generateId, Date_now, Math_random_suffix,
    bind, ret, set.
  cbn [fst snd]. unfold getPositionBySymbol, getPositionsByPortfolio.
  cbn [positions]. rewrite filter_app, filter_cons_True by done.
  rewrite filter_nil. split_and!.
  - rewrite length_app. simpl. lia.
  - intros Hnone. apply fmap_None in Hnone.
    rewrite list_find_app_r by exact Hnone. simpl.
    rewrite decide_True by done. simpl.
    eexists. by split_and!.
  - intros earlier ([j e] & Hfind & ->)%fmap_Some.
    by erewrite list_find_app_l by exact Hfind.
Qed.

Lemma addPosition_then_lookup_witness :
  ∃ added,
    getPositionBySymbol
      (exec (addPosition (PositionData.mk "p1" "ETH" buy (num 10) (num 3000)
                            (num 3000) (Some 0) 0))
            Positions.btcStore host0) "p1" "ETH" = Some added ∧
    Position.quantity added = num 10.
Proof.
  destruct (proj1 (proj2 (addPosition_then_lookup
              (PositionData.mk "p1" "ETH" buy (num 10) (num 3000) (num 3000)
                               (Some 0) 0)
              Positions.btcStore host0)) eq_refl)
    as (added & Hlookup & _ & _ & Hq & _).
  by exists added.
Defined.

(** X15. [closePosition] of the position store does nothing for an id that
    no position carries. For the id of a position it removes every position
    with that id and appends one transaction for the portfolio and symbol
    of the first of them: on the opposite side, for the whole quantity at
    the closing price, with the fee of 0.1% and a total of the gross amount
    less the fee on either side. *)
Theorem position_closePosition (id : string) (closePrice : number)
    (state : PositionStoreState) (h : Host) :
  (list_find (λ p, Position.id p = id) (positions state) = None →
   closePosition id closePrice state h = (tt, state, h)) ∧
  (∀ j position,
     list_find (λ p, Position.id p = id) (positions state) = Some (j, position) →
     ∃ closing h',
       closePosition id closePrice state h
         = (tt,
            mkState (filter (λ p, Position.id p ≠ id) (positions state))
                    (transactions state ++ [closing]) (orders state),
            h') ∧
       Transaction.portfolioId closing = Position.portfolioId position ∧
       Transaction.symbol closing = Position.symbol position ∧
       Transaction.side closing
         = (if decide (Position.side position = buy) then sell else buy) ∧
       Transaction.quantity closing = Position.quantity position ∧
       Transaction.price closing = closePrice ∧
       Transaction.fee closing
         = Position.quantity position * closePrice * DEFAULT_TRADING_FEE_PERCENT ∧
       Transaction.total closing
         = Position.quantity position * closePrice - Transaction.fee closing).
Proof.
  split.
  - intros Hnone. unfold closePosition. unfold bind at 1. unfold get.
    by rewrite Hnone.
  - intros j position Hfind. unfold closePosition. unfold bind at 1. unfold get.
    rewrite Hfind. cbn [fmap option_fmap option_map snd].
    unfold generateId, Date_now, Math_random_suffix, bind, ret, set.
    eexists (Transaction.mk _ _ _ _ _ _ _ _ _ _), _.
    split; [reflexivity|]. by split_and!.
Qed.

Lemma position_closePosition_witness :
  closePosition "pos_9" (num 55000) Positions.btcStore host0
  = (tt, Positions.btcStore, host0) ∧
  ∃ closing,
    transactions (exec (closePosition "pos_1" (num 55000)) Positions.btcStore host0)
      = [closing] ∧
    Transaction.side closing = sell.
Proof.
  split.
  - by apply (position_closePosition "pos_9" (num 55000) Positions.btcStore host0).
  - destruct (proj2 (position_closePosition "pos_1" (num 55000)
                       Positions.btcStore host0) 0%nat Positions.btc eq_refl)
      as (closing & h' & Heq & _ & _ & Hside & _).
    exists closing. unfold exec. rewrite Heq. by split.
Defined.

Lemma filter_cleared {A} (key : A → string) (a b : string) (l : list A) :
  filter (λ x, key x = a) (filter (λ x, key x ≠ b) l)
  = if decide (a = b) then [] else filter (λ x, key x = a) l.
Proof.
  induction l as [|x l IH]; [by destruct (decide (a = b))|].
  destruct (decide (key x = b)) as [Hx|Hx].
  - rewrite (filter_cons_False (λ x, key x ≠ b)) by (intros Hn; by apply Hn).
    rewrite IH. destruct (decide (a = b)) as [->|Hab]; [done|].
    rewrite filter_cons_False; [done|]. intros Hxa. apply Hab. by rewrite <- Hxa.
  - rewrite (filter_cons_True (λ x, key x ≠ b)) by done.
    destruct (decide (key x = a)) as [Ha|Ha].
    + rewrite !(filter_cons_True (λ x, key x = a)) by done. rewrite IH.
      destruct (decide (a = b)) as [->|Hab]; [done|done].
    + rewrite !(filter_cons_False (λ x, key x = a)) by done. exact IH.
Qed.

(** X16. [clearPositions] with the id of a portfolio removes exactly the
    positions of that portfolio: none of them is left, the positions of
    every other portfolio are the ones before, and transactions and orders
    are untouched. [clearTransactions] does the same to the log. Without
    an id, and with the empty string as id, each of them removes the
    entries of every portfolio; [resetAllData] empties the three lists. *)
Theorem clear_actions_scope (state : PositionStoreState) (h : Host) :
  (∀ portfolioId,
     portfolioId ≠ "" →
     let state' := exec (clearPositions (Some portfolioId)) state h in
     getPositionsByPortfolio state' portfolioId = [] ∧
     (∀ other, other ≠ portfolioId →
        getPositionsByPortfolio state' other = getPositionsByPortfolio state other) ∧
     transactions state' = transactions state ∧
     orders state' = orders state) ∧
  (∀ portfolioId,
     portfolioId ≠ "" →
     let state' := exec (clearTransactions (Some portfolioId)) state h in
     getTransactionsByPortfolio state' portfolioId = [] ∧
     (∀ other, other ≠ portfolioId →
        getTransactionsByPortfolio state' other
        = getTransactionsByPortfolio state other) ∧
     positions state' = positions state ∧
     orders state' = orders state) ∧
  positions (exec (clearPositions None) state h) = [] ∧
  positions (exec (clearPositions (Some "")) state h) = [] ∧
  transactions (exec (clearTransactions None) state h) = [] ∧
  transactions (exec (clearTransactions (Some "")) state h) = [] ∧
  exec resetAllData state h = initialState.
Proof.
  split_and!; [| |done..].
  - intros portfolioId Hne state'. subst state'.
    unfold exec, clearPositions. cbn [truthy_string].
    rewrite decide_False by done. unfold set. cbn [fst snd].
    unfold getPositionsByPortfolio. cbn [positions transactions orders].
    split_and!; [| |done..].
    + rewrite filter_cleared. by rewrite decide_True.
    + intros other Hother. rewrite filter_cleared. by rewrite decide_False.
  - intros portfolioId Hne state'. subst state'.
    unfold exec, clearTransactions. cbn [truthy_string].
    rewrite decide_False by done. unfold set. cbn [fst snd].
    unfold getTransactionsByPortfolio. cbn [positions transactions orders].
    split_and!; [| |done..].
    + rewrite filter_cleared. by rewrite decide_True.
    + intros other Hother. rewrite filter_cleared. by rewrite decide_False.
Qed.

Lemma clear_actions_scope_witness :
  getPositionsByPortfolio
    (exec (clearPositions (Some "p1")) Positions.twoPositions host0) "p2"
  = [Positions.eth].
Proof.
  rewrite (proj1 (proj2 (proj1 (clear_actions_scope Positions.twoPositions host0)
                           "p1" ltac:(discriminate))) "p2" ltac:(discriminate)).
  reflexivity.
Defined.

End position_lookup.

(** ** Sorting by a key, most recent first *)

Section sorting_facts.
Context {A : Type}.

Lemma insertSorted_Permutation (before : A → A → bool) (x : A) (l : list A) :
  insertSorted before x l ≡ₚ x :: l.
Proof.
  induction l as [|y l IH]; simpl; [done|].
  destruct (before x y); [done|]. rewrite IH. apply Permutation_swap.
Qed.

Lemma sortBy_Permutation (before : A → A → bool) (l : list A) :
  sortBy before l ≡ₚ l.
Proof.
  induction l as [|x l IH]; [done|].
  unfold sortBy in *. simpl. by rewrite insertSorted_Permutation, IH.
Qed.

Lemma insertSorted_descending (key : A → Z) (x : A) (l : list A) :
  StronglySorted (λ a b, (key b ≤ key a)%Z) l →
  StronglySorted (λ a b, (key b ≤ key a)%Z)
    (insertSorted (λ a b, bool_decide (key b ≤ key a)%Z) x l).
Proof.
  induction 1 as [|y l Hl IH Hy]; simpl.
  - repeat constructor.
  - case_bool_decide as Hxy.
    + constructor; [by constructor|]. constructor; [done|].
      eapply Forall_impl; [exact Hy|]. intros z Hz. simpl in *. lia.
    + constructor; [done|].
      rewrite insertSorted_Permutation. constructor; [lia|done].
Qed.

Lemma sortBy_descending (key : A → Z) (l : list A) :
  StronglySorted (λ a b, (key b ≤ key a)%Z)
    (sortBy (λ a b, bool_decide (key b ≤ key a)%Z) l).
Proof.
  induction l as [|x l IH]; [constructor|].
  unfold sortBy in *. simpl. by apply insertSorted_descending.
Qed.

End sorting_facts.

Section position_queries.
Import Trading PositionStore Book Examples.

(** X17. [getTransactionsByPortfolio] lists exactly the transactions of
    the portfolio, each as often as the log holds it, most recent first:
    no listed transaction has a later timestamp than one listed before it.
    [getOrdersByPortfolio] does the same for the orders, by their time of
    creation. *)
Theorem listings_most_recent_first (state : PositionStoreState)
    (portfolioId : string) :
  (getTransactionsByPortfolio state portfolioId
     ≡ₚ filter (λ t, Transaction.portfolioId t = portfolioId) (transactions state) ∧
   StronglySorted (λ a b, (Transaction.timestamp b ≤ Transaction.timestamp a)%Z)
     (getTransactionsByPortfolio state portfolioId)) ∧
  (getOrdersByPortfolio state portfolioId
     ≡ₚ filter (λ o, Order.portfolioId o = portfolioId) (orders state) ∧
   StronglySorted (λ a b, (Order.createdAt b ≤ Order.createdAt a)%Z)
     (getOrdersByPortfolio state portfolioId)).
Proof.
  unfold getTransactionsByPortfolio, getOrdersByPortfolio. split_and!.
  - apply sortBy_Permutation.
  - apply (sortBy_descending Transaction.timestamp).
  - apply sortBy_Permutation.
  - apply (sortBy_descending Order.createdAt).
Qed.

End position_queries.

(** ** The position store: the log and the orders under a trade *)

Section position_log.
Import Trading PositionStore Book Examples.

(** What every call of [executeTrade] does to the three lists. *)
Lemma position_executeTrade_shape (portfolioId symbol : string)
    (side : OrderSide) (quantity price : number) (type : OrderType)
    (state : PositionStoreState) (h : Host) :
  ∃ traded positions' tx closing h',
    executeTrade portfolioId symbol side quantity price type state h
      = (traded,
         mkState positions' (transactions state ++ tx :: closing) (orders state),
         h') ∧
    TradeResult.success traded = true ∧
    fill tx portfolioId symbol side quantity price ∧
    Transaction.orderId tx = None ∧
    length closing = closings state portfolioId symbol side quantity.
Proof.
  unfold closings, existing, executeTrade. unfold bind at 1. unfold get.
  unfold bind at 1. unfold Date_now at 1.
  unfold bind at 1. unfold addTransaction, generateId, Date_now,
    Math_random_suffix, bind, ret, set; simpl.
  destruct (list_find _ (positions state)) as [[j e]|] eqn:Hfind; simpl.
  - apply list_find_Some in Hfind as (Hj & _ & _).
    destruct (decide (Position.side e = side)) as [Hside|Hside].
    + edestruct updatePosition_shape as (ps & h' & Heq). rewrite Heq. simpl.
      assert (¬ (Position.side e ≠ side ∧ Position.quantity e ≤ quantity))
        as Hno by (by intros [? _]).
      rewrite (decide_False _ _ Hno).
      eexists _, ps, (Transaction.mk _ _ _ _ _ _ _ _ _ _), [], h'.
      split_and!; [reflexivity|done| |done..]. by repeat split.
    + destruct (decide (Position.quantity e ≤ quantity)) as [Hle|Hle].
      * edestruct closePosition_at as (closing & h' & _ & Heq);
          [|rewrite Heq]; [exact Hj|].
        rewrite (decide_True _ _ (conj Hside Hle)).
        destruct (decide (Position.quantity e < quantity)); simpl;
          unfold addPosition, generateId, Date_now, Math_random_suffix,
            bind, ret, set; simpl; rewrite <- app_assoc;
          eexists _, _, (Transaction.mk _ _ _ _ _ _ _ _ _ _), [closing], _;
          (split_and!; [reflexivity|done| |done..]); by repeat split.
      * edestruct updatePosition_shape as (ps & h' & Heq). rewrite Heq. simpl.
        assert (¬ (Position.side e ≠ side ∧ Position.quantity e ≤ quantity))
          as Hno by (by intros [_ ?]).
        rewrite (decide_False _ _ Hno).
        eexists _, ps, (Transaction.mk _ _ _ _ _ _ _ _ _ _), [], h'.
        split_and!; [reflexivity|done| |done..]. by repeat split.
  - unfold addPosition, generateId, Date_now, Math_random_suffix,
      bind, ret, set; simpl.
    eexists _, _, (Transaction.mk _ _ _ _ _ _ _ _ _ _), [], _.
    split_and!; [reflexivity|done| |done..]. by repeat split.
Qed.

(** X18. Every trade of the position store succeeds and only appends to
    the log: the earlier transactions and the orders are left as they were,
    and the log receives the fill, with the fee of 0.1% and without an
    order id, followed by one closing transaction exactly when the trade
    meets a position of the other side whose quantity it covers. *)
Theorem position_executeTrade_appends (portfolioId symbol : string)
    (side : OrderSide) (quantity price : number) (type : OrderType)
    (state : PositionStoreState) (h : Host) :
  let trade := executeTrade portfolioId symbol side quantity price type in
  TradeResult.success (result trade state h) = true ∧
  orders (exec trade state h) = orders state ∧
  ∃ tx closing,
    transactions (exec trade state h) = transactions state ++ tx :: closing ∧
    fill tx portfolioId symbol side quantity price ∧
    Transaction.orderId tx = None ∧
    length closing = closings state portfolioId symbol side quantity.
Proof.
  intros trade. subst trade.
  destruct (position_executeTrade_shape portfolioId symbol side quantity price
              type state h)
    as (traded & ps & tx & closing & h' & Heq & Hok & Hfill & Horder & Hlen).
  unfold result, exec. rewrite Heq. simpl.
  split_and!; [done..|]. by exists tx, closing.
Qed.

(** X19. [fillOrder] does nothing for an id that no order carries. For
    the id of an order it marks every order with that id as filled at the
    fill price and executes the trade of the first of them, whatever the
    status of the order: a cancelled order and an order that was filled
    before are traded as a pending one is. The transaction of the trade
    carries no order id. *)
Theorem fillOrder_any_status (id : string) (fillPrice : number)
    (state : PositionStoreState) (h : Host) :
  (list_find (λ o, Order.id o = id) (orders state) = None →
   fillOrder id fillPrice state h = (tt, state, h)) ∧
  (∀ j order,
     list_find (λ o, Order.id o = id) (orders state) = Some (j, order) →
     ∃ filledAt positions' tx closing h',
       fillOrder id fillPrice state h
         = (tt,
            mkState positions' (transactions state ++ tx :: closing)
              ((λ o, if decide (Order.id o = id)
                     then Order.mk (Order.id o) (Order.portfolioId o)
                            (Order.symbol o) (Order.side o) (Order.type o)
                            (Order.quantity o) (Order.price o) filled
                            (Order.createdAt o) (Some filledAt) (Some fillPrice)
                     else o) <$> orders state),
            h') ∧
       fill tx (Order.portfolioId order) (Order.symbol order) (Order.side order)
            (Order.quantity order) fillPrice ∧
       Transaction.orderId tx = None).
Proof.
  split.
  - intros Hnone. unfold fillOrder. unfold bind at 1. unfold get.
    by rewrite Hnone.
  - intros j order Hfind. unfold fillOrder. unfold bind at 1. unfold get.
    rewrite Hfind. cbn [fmap option_fmap option_map snd].
    unfold bind at 1. unfold Date_now at 1.
    unfold bind at 1. unfold updateOrder at 1. unfold set at 1.
    unfold bind at 1.
    edestruct position_executeTrade_shape
      as (traded & ps & tx & closing & h' & Heq & _ & Hfill & Horder & _).
    rewrite Heq. cbn [transactions orders].
    exists (clock h (calls h)), ps, tx, closing, h'. by split_and!.
Qed.

Lemma fillOrder_any_status_witness :
  ∃ tx closing,
    transactions (exec (fillOrder "order_1" (num 50000))
                       Positions.cancelledStore host0) = tx :: closing ∧
    Transaction.quantity tx = num 1.
Proof.
  destruct (proj2 (fillOrder_any_status "order_1" (num 50000)
                     Positions.cancelledStore host0)
              0%nat Positions.cancelledOrder eq_refl)
    as (filledAt & ps & tx & closing & h' & Heq & Hfill & _).
  exists tx, closing. unfold exec. rewrite Heq. split; [done|].
  by destruct Hfill as (_ & _ & _ & Hq & _).
Defined.

End position_log.

(** ** The position store: the positions under a trade *)

Section position_slots.
Import Trading PositionStore Book Examples.

Lemma slots_kept (id : string) (updates : PositionUpdates.t)
    (l l' : list Position.t) :
  length l' = length l →
  (∀ k x, l !! k = Some x →
     ∃ now, l' !! k =
       Some (if decide (Position.id x = id)
             then applyUpdates x updates now else x)) →
  slot <$> l' = slot <$> l.
Proof.
  intros Hlen Hat. apply list_eq. intros k. rewrite !list_lookup_fmap.
  destruct (l !! k) as [x|] eqn:Hk.
  - destruct (Hat k x Hk) as [now ->]. simpl. by destruct (decide _).
  - apply lookup_ge_None in Hk. rewrite <- Hlen in Hk.
    apply lookup_ge_None in Hk. by rewrite Hk.
Qed.

Lemma slots_without (id : string) (l : list Position.t) :
  NoDup (slot <$> l) →
  NoDup (slot <$> filter (λ p, Position.id p ≠ id) l).
Proof.
  intros Hnodup. eapply sublist_NoDup; [exact Hnodup|].
  apply fmap_sublist, sublist_filter.
Qed.

(** X20. With distinct position ids, a trade of the position store
    against a position of the other side, for more than its quantity, turns
    the position around: the position is removed and one is opened on the
    side of the trade for the excess quantity, entered and priced at the
    price of the trade with no unrealized P&L, and the log receives the
    fill and the closing transaction of the whole earlier position. *)
Theorem position_executeTrade_turns_around (portfolioId symbol : string)
    (side : OrderSide) (quantity price : number) (type : OrderType)
    (state : PositionStoreState) (h : Host) (j : nat) (e : Position.t) :
  NoDup (Position.id <$> positions state) →
  existing state portfolioId symbol = Some (j, e) →
  Position.side e ≠ side →
  Position.quantity e < quantity →
  ∃ tx closing opened,
    exec (executeTrade portfolioId symbol side quantity price type) state h
      = mkState
          (filter (λ p, Position.id p ≠ Position.id e) (positions state)
             ++ [opened])
          (transactions state ++ [tx; closing]) (orders state) ∧
    TradeResult.positionId
      (result (executeTrade portfolioId symbol side quantity price type) state h)
      = Some (Position.id opened) ∧
    slot opened = (portfolioId, symbol) ∧
    Position.side opened = side ∧
    Position.quantity opened = quantity - Position.quantity e ∧
    Position.entryPrice opened = price ∧
    Position.currentPrice opened = price ∧
    Position.unrealizedPnL opened = Some 0 ∧
    Position.unrealizedPnLPercent opened = 0 ∧
    fill tx portfolioId symbol side quantity price ∧
    Transaction.side closing = side ∧
    Transaction.quantity closing = Position.quantity e ∧
    Transaction.price closing = price.
Proof.
  intros Hnodup Hfind Hside Hlt. unfold existing in Hfind.
  unfold exec, result, executeTrade. unfold bind at 1 3. unfold get.
  unfold bind at 1 3. unfold Date_now at 1 2.
  unfold bind at 1 3. unfold addTransaction, generateId, Date_now,
    Math_random_suffix, bind, ret, set; simpl.
  rewrite Hfind; simpl. rewrite (decide_False _ _ Hside).
  rewrite (decide_True _ _ (Qclt_le_weak _ _ Hlt)).
  apply list_find_Some in Hfind as (Hj & _ & _).
  erewrite (closePosition_found _ _ j e); [|done..].
  rewrite (decide_True _ _ Hlt). unfold addPosition, generateId, Date_now,
    Math_random_suffix, bind, ret, set; simpl.
  rewrite <- app_assoc. simpl.
  eexists (Transaction.mk _ _ _ _ _ _ _ _ _ _),
          (Transaction.mk _ _ _ _ _ _ _ _ _ _),
          (Position.mk _ _ _ _ _ _ _ _ _ _ _).
  split; [reflexivity|]. cbn.
  split_and!; try done.
  - f_equal. ring.
  - destruct (decide (0 < price)); [|done]. unfold Qcdiv. ring.
  - by destruct (Position.side e), side.
Qed.

Lemma position_executeTrade_turns_around_witness :
  ∃ opened,
    positions (exec (executeTrade "p1" "BTC" sell (num 3) (num 55000) market)
                    Positions.btcStore host0) = [opened] ∧
    Position.side opened = sell ∧
    Position.quantity opened = num 3 - num 1.
Proof.
  destruct (position_executeTrade_turns_around "p1" "BTC" sell (num 3)
              (num 55000) market Positions.btcStore host0 0 Positions.btc)
    as (tx & closing & opened & Heq & _ & _ & Hside & Hq & _).
  - apply NoDup_singleton.
  - reflexivity.
  - discriminate.
  - reflexivity.
  - exists opened. rewrite Heq. by split_and!.
Defined.

End position_slots.

Section position_invariant.
Import Trading PositionStore Book Examples.

(** X21. [executeTrade] of the position store never gives a portfolio a
    second position in a symbol: if no two positions of the store share
    portfolio and symbol before a trade, none do after it. *)
Theorem position_executeTrade_one_position_per_symbol
    (portfolioId symbol : string) (side : OrderSide) (quantity price : number)
    (type : OrderType) (state : PositionStoreState) (h : Host) :
  NoDup (slot <$> positions state) →
  NoDup (slot <$> positions
           (exec (executeTrade portfolioId symbol side quantity price type)
                 state h)).
Proof.
  intros Hnodup.
  unfold exec, executeTrade. unfold bind at 1. unfold get.
  unfold bind at 1. unfold Date_now at 1.
  unfold bind at 1. unfold addTransaction, generateId, Date_now,
    Math_random_suffix, bind, ret, set; simpl.
  destruct (list_find _ (positions state)) as [[j e]|] eqn:Hfind; simpl.
  - apply list_find_Some in Hfind as (Hj & [Hpid Hsym] & _).
    destruct (decide (Position.side e = side)) as [Hside|Hside].
    + edestruct updatePosition_at as (ps & h' & Heq & Hlen & Hat).
      rewrite Heq. simpl in *. by rewrite (slots_kept _ _ _ _ Hlen Hat).
    + destruct (decide (Position.quantity e ≤ quantity)) as [Hle|Hle].
      * edestruct closePosition_at as (closing & h' & _ & Heq);
          [|rewrite Heq]; [exact Hj|].
        destruct (decide (Position.quantity e < quantity)); simpl;
          unfold addPosition, generateId, Date_now, Math_random_suffix,
            bind, ret, set; simpl; [|by apply slots_without].
        rewrite fmap_app. apply NoDup_app. split_and!.
        -- by apply slots_without.
        -- intros s Hs Hin. apply list_elem_of_singleton in Hin. subst s.
           apply list_elem_of_fmap in Hs as (x & Hx & Hfilter).
           apply list_elem_of_filter in Hfilter as [Hid Hin].
           apply list_elem_of_lookup_1 in Hin as [k Hk].
           assert (k = j); [|by simplify_eq].
           eapply (NoDup_lookup _ _ _ _ Hnodup).
           ++ rewrite list_lookup_fmap, Hk. simpl. by rewrite <- Hx.
           ++ rewrite list_lookup_fmap, Hj. simpl. unfold slot.
              by rewrite Hpid, Hsym.
        -- apply NoDup_singleton.
      * edestruct updatePosition_at as (ps & h' & Heq & Hlen & Hat).
        rewrite Heq. simpl in *. by rewrite (slots_kept _ _ _ _ Hlen Hat).
  - unfold addPosition, generateId, Date_now, Math_random_suffix,
      bind, ret, set; simpl.
    rewrite fmap_app. apply NoDup_app. split_and!; [done| |apply NoDup_singleton].
    intros s Hs Hin. apply list_elem_of_singleton in Hin. subst s.
    apply list_elem_of_fmap in Hs as (x & Hx & Hin).
    apply list_find_None in Hfind.
    apply (proj1 (Forall_forall _ _) Hfind x Hin).
    unfold slot in Hx. by simplify_eq/=.
Qed.

Lemma position_executeTrade_one_position_per_symbol_witness :
  NoDup (slot <$> positions
           (exec (executeTrade "p1" "BTC" sell (num 3) (num 55000) market)
                 Positions.twoPositions host0)).
Proof.
  apply position_executeTrade_one_position_per_symbol.
  cbn. apply NoDup_cons. split; [|apply NoDup_singleton].
  intros Hin%list_elem_of_singleton. discriminate.
Defined.

End position_invariant.

(** ** The position store: price updates *)

Section position_prices.
Import Trading PositionStore Book Examples.

(** The callback that [updatePositionPrices] maps over the positions. *)
Let reprice (priceUpdates : gmap string number) (position : Position.t)
  : M PositionStoreState Position.t :=
  match priceUpdates !! Position.symbol position with
  | None => ret position
  | Some currentPrice =>
    if decide (currentPrice = 0) then ret position
    else
      let '(unrealizedPnL, unrealizedPnLPercent) :=
        calculatePositionPnL (pnlInput position) currentPrice in
      let* now := Date_now in
      ret (Position.mk (Position.id position)
             (Position.portfolioId position)
             (Position.symbol position) (Position.side position)
             (Position.quantity position)
             (Position.entryPrice position)
             currentPrice unrealizedPnL unrealizedPnLPercent
             (Position.createdAt position) now)
  end.

(** What a price update makes of one position. *)
Let repriced (priceUpdates : gmap string number) (position updated : Position.t)
  : Prop :=
  match priceUpdates !! Position.symbol position with
  | None => updated = position
  | Some currentPrice =>
    if decide (currentPrice = 0) then updated = position
    else
      let marked :=
        Analytics.calculateUnrealizedPnL (Position.entryPrice position)
          currentPrice (Position.quantity position) (Position.side position) in
      ∃ now,
        updated =
          Position.mk (Position.id position) (Position.portfolioId position)
            (Position.symbol position) (Position.side position)
            (Position.quantity position) (Position.entryPrice position)
            currentPrice
            (Some (Analytics.PnL.pnl marked)) (Analytics.PnL.pnlPercent marked)
            (Position.createdAt position) now
  end.

Lemma mapM_reprice (priceUpdates : gmap string number) (l : list Position.t)
    (s : PositionStoreState) (h : Host) :
  ∃ l' h',
    mapM (reprice priceUpdates) l s h = (l', s, h') ∧
    length l' = length l ∧
    ∀ k position, l !! k = Some position →
      ∃ updated, l' !! k = Some updated ∧ repriced priceUpdates position updated.
Proof.
  revert h. induction l as [|y l IH]; intros h.
  - exists [], h. by split_and!.
  - simpl. unfold bind at 1. unfold reprice at 1.
    destruct (priceUpdates !! Position.symbol y) as [c|] eqn:Hc;
      [destruct (decide (c = 0)) as [Hz|Hz]|].
    + unfold ret at 1.
      destruct (IH h) as (l' & h' & Heq & Hlen & Hat).
      unfold bind at 1. rewrite Heq.
      eexists _, h'. split_and!; [reflexivity|by simpl; f_equal|].
      intros [|k] x Hk; simplify_eq/=; [|by apply Hat].
      exists x. split; [done|]. unfold repriced. rewrite Hc.
      by rewrite decide_True.
    + cbn.
      destruct (IH (advance h)) as (l' & h' & Heq & Hlen & Hat).
      unfold bind at 1. rewrite Heq.
      eexists _, h'. split_and!; [reflexivity|by simpl; f_equal|].
      intros [|k] x Hk; simplify_eq/=; [|by apply Hat].
      eexists. split; [done|]. unfold repriced. rewrite Hc.
      rewrite decide_False by done. by exists (clock h (calls h)).
    + unfold ret at 1.
      destruct (IH h) as (l' & h' & Heq & Hlen & Hat).
      unfold bind at 1. rewrite Heq.
      eexists _, h'. split_and!; [reflexivity|by simpl; f_equal|].
      intros [|k] x Hk; simplify_eq/=; [|by apply Hat].
      exists x. split; [done|]. unfold repriced. by rewrite Hc.
Qed.

(** X22. [updatePositionPrices] keeps the number and the order of the
    positions and leaves transactions and orders alone. A position whose
    symbol has a price in the update that is not 0 takes that price as its
    current price, with the unrealized P&L and its percentage that
    [calculateUnrealizedPnL] of the analytics module gives for its entry
    price, quantity and side; its id, portfolio, symbol, side, quantity and
    entry price stay. A position whose symbol has no price in the update,
    or the price 0, is left as it is. *)
Theorem updatePositionPrices_marks_to_market
    (priceUpdates : gmap string number) (state : PositionStoreState) (h : Host) :
  ∃ positions' h',
    updatePositionPrices priceUpdates state h
      = (tt, mkState positions' (transactions state) (orders state), h') ∧
    length positions' = length (positions state) ∧
    ∀ k position, positions state !! k = Some position →
      ∃ updated,
        positions' !! k = Some updated ∧
        match priceUpdates !! Position.symbol position with
        | None => updated = position
        | Some currentPrice =>
          if decide (currentPrice = 0) then updated = position
          else
            let marked :=
              Analytics.calculateUnrealizedPnL (Position.entryPrice position)
                currentPrice (Position.quantity position)
                (Position.side position) in
            ∃ now,
              updated =
                Position.mk (Position.id position) (Position.portfolioId position)
                  (Position.symbol position) (Position.side position)
                  (Position.quantity position) (Position.entryPrice position)
                  currentPrice
                  (Some (Analytics.PnL.pnl marked))
                  (Analytics.PnL.pnlPercent marked)
                  (Position.createdAt position) now
        end.
Proof.
  destruct (mapM_reprice priceUpdates (positions state) state h)
    as (l' & h' & Heq & Hlen & Hat).
  unfold reprice in Heq. exists l', h'. split_and!; [|done..].
  unfold updatePositionPrices. unfold bind at 1 2. unfold get. by rewrite Heq.
Qed.

Lemma updatePositionPrices_marks_to_market_witness :
  ∃ updated,
    positions (exec (updatePositionPrices {[ "BTC" := num 55000 ]})
                    Positions.btcStore host0) !! 0%nat = Some updated ∧
    Position.currentPrice updated = num 55000 ∧
    Position.unrealizedPnL updated = Some (num 5000).
Proof.
  destruct (updatePositionPrices_marks_to_market {[ "BTC" := num 55000 ]}
              Positions.btcStore host0) as (ps & h' & Heq & _ & Hat).
  destruct (Hat 0%nat Positions.btc eq_refl) as (updated & Hk & Hmark).
  exists updated. unfold exec. rewrite Heq. split; [exact Hk|].
  change (Position.symbol Positions.btc) with "BTC" in Hmark.
  rewrite lookup_singleton_eq in Hmark.
  rewrite decide_False in Hmark by discriminate.
  destruct Hmark as [now ->]. split; [done|]. cbn. f_equal.
  apply Qc_is_canon. reflexivity.
Defined.

End position_prices.

(** * Properties of the analytics module *)

Section number_facts.

Lemma Qcmult_pos (a b : number) : 0 < a → 0 < b → 0 < a * b.
Proof.
  intros Ha Hb. replace 0 with (0 * b) by ring.
  by apply Qcmult_lt_compat_r.
Qed.

Lemma Qcminus_le_compat_r (a b c : number) : a ≤ b → a - c ≤ b - c.
Proof.
  intros Hab. unfold Qcminus. apply Qcplus_le_compat; [done|apply Qcle_refl].
Qed.

Lemma Qcminus_nonneg (a b : number) : b ≤ a → 0 ≤ a - b.
Proof. intros Hba. by apply Qcle_minus_iff in Hba. Qed.

Lemma fee_rate_positive : 0 < Trading.DEFAULT_TRADING_FEE_PERCENT.
Proof. reflexivity. Qed.

Lemma num_le (a b : Z) : (a ≤ b)%Z → num a ≤ num b.
Proof.
  intros Hab. unfold num, Qcle, Qc_of_Z. cbn [this]. unfold Qle. simpl. lia.
Qed.

Lemma Qcle_plus_nonneg_r (a b : number) : 0 ≤ b → a ≤ a + b.
Proof.
  intros Hb. rewrite <- (Qcplus_0_r a) at 1.
  apply Qcplus_le_compat; [apply Qcle_refl|done].
Qed.

Lemma Qcle_plus_nonneg_l (a b : number) : 0 ≤ a → b ≤ a + b.
Proof.
  intros Ha. rewrite <- (Qcplus_0_l b) at 1.
  apply Qcplus_le_compat; [done|apply Qcle_refl].
Qed.

Lemma Qcdiv_nonneg (a b : number) : 0 ≤ a → 0 < b → 0 ≤ a / b.
Proof.
  intros Ha Hb. apply (Qcmult_lt_0_le_reg_r _ _ b); [done|].
  replace (0 * b) with 0 by ring.
  replace (a / b * b) with a; [done|].
  field. by apply not_eq_sym, Qclt_not_eq.
Qed.

Lemma Qcdiv_le_one (a b : number) : a ≤ b → 0 < b → a / b ≤ 1.
Proof.
  intros Hab Hb. apply (Qcmult_lt_0_le_reg_r _ _ b); [done|].
  replace (1 * b) with b by ring.
  replace (a / b * b) with a; [done|].
  field. by apply not_eq_sym, Qclt_not_eq.
Qed.

Lemma Qcsum_nonneg (l : list number) : Forall (λ x, 0 ≤ x) l → 0 ≤ Qcsum l.
Proof.
  induction 1 as [|x l Hx _ IH]; simpl; [apply Qcle_refl|].
  eapply Qcle_trans; [exact IH|]. by apply Qcle_plus_nonneg_l.
Qed.

Lemma Qcsum_member_le (l : list number) (x : number) :
  Forall (λ y, 0 ≤ y) l → x ∈ l → x ≤ Qcsum l.
Proof.
  induction 1 as [|y l Hy Hl IH]; intros Hx.
  - by apply elem_of_nil in Hx.
  - apply elem_of_cons in Hx as [->|Hx]; simpl.
    + apply Qcle_plus_nonneg_r. by apply Qcsum_nonneg.
    + eapply Qcle_trans; [by apply IH|]. by apply Qcle_plus_nonneg_l.
Qed.

End number_facts.

Section profit_and_loss.
Import Trading Analytics Examples.

(** X23. The realized P&L of [calculateRealizedPnL] is the unrealized P&L
    of [calculateUnrealizedPnL] at the exit price less the fees: without
    fees the two amounts agree and no fee is reported; with fees the amount
    is lower by the fees reported, 0.1% of the entry value plus 0.1% of the
    exit value. A short position between the same prices has the opposite
    unrealized P&L, in amount and in percentage, of a long one. *)
Theorem realized_is_unrealized_less_fees (entryPrice exitPrice quantity : number)
    (side : OrderSide) :
  let open := calculateUnrealizedPnL entryPrice exitPrice quantity side in
  let gross := calculateRealizedPnL entryPrice exitPrice quantity side false in
  let net := calculateRealizedPnL entryPrice exitPrice quantity side true in
  RealizedPnL.pnl gross = PnL.pnl open ∧
  RealizedPnL.fees gross = 0 ∧
  RealizedPnL.fees net
    = entryPrice * quantity * DEFAULT_TRADING_FEE_PERCENT
      + exitPrice * quantity * DEFAULT_TRADING_FEE_PERCENT ∧
  RealizedPnL.pnl net = PnL.pnl open - RealizedPnL.fees net ∧
  PnL.pnl (calculateUnrealizedPnL entryPrice exitPrice quantity sell)
    = - PnL.pnl (calculateUnrealizedPnL entryPrice exitPrice quantity buy) ∧
  PnL.pnlPercent (calculateUnrealizedPnL entryPrice exitPrice quantity sell)
    = - PnL.pnlPercent (calculateUnrealizedPnL entryPrice exitPrice quantity buy).
Proof.
  intros open gross net. subst open gross net.
  unfold calculateRealizedPnL, calculateUnrealizedPnL. cbn.
  split_and!; try ring; try done.
  - destruct (decide (sell = buy)); [done|].
    destruct (decide (buy = buy)); [|done]. ring.
  - destruct (decide (sell = buy)); [done|].
    destruct (decide (buy = buy)); [|done].
    destruct (decide (0 < entryPrice)); ring.
Qed.

(** X24. The price of [calculateBreakEvenPrice] at the default fee rate
    does not bring the realized P&L of [calculateRealizedPnL] with fees to
    0: for a positive entry price and quantity, a long position closed at
    that price is left with a loss and a short position with a gain. *)
Theorem break_even_price_leaves_a_residual (entryPrice quantity : number) :
  let fee := DEFAULT_TRADING_FEE_PERCENT in
  let closed side :=
    calculateRealizedPnL entryPrice (calculateBreakEvenPrice entryPrice side fee)
                         quantity side true in
  0 < entryPrice → 0 < quantity →
  RealizedPnL.pnl (closed buy) < 0 ∧ 0 < RealizedPnL.pnl (closed sell).
Proof.
  intros fee closed Hentry Hquantity. subst closed.
  assert (0 < (1 + 1) * fee * fee * entryPrice * quantity) as Hresidual.
  { repeat apply Qcmult_pos; try done; apply fee_rate_positive. }
  split.
  - replace (RealizedPnL.pnl _)
      with (- ((1 + 1) * fee * fee * entryPrice * quantity)).
    + apply Qclt_minus_iff. by rewrite Qcopp_involutive, Qcplus_0_l.
    + cbv beta zeta iota delta
        [calculateRealizedPnL calculateBreakEvenPrice RealizedPnL.pnl].
      rewrite !decide_True by done. subst fee. ring.
  - replace (RealizedPnL.pnl _)
      with ((1 + 1) * fee * fee * entryPrice * quantity); [done|].
    cbv beta zeta iota delta
      [calculateRealizedPnL calculateBreakEvenPrice RealizedPnL.pnl].
    rewrite !decide_False by done. subst fee. ring.
Qed.

Lemma break_even_price_leaves_a_residual_witness :
  RealizedPnL.pnl
    (calculateRealizedPnL (num 50000)
       (calculateBreakEvenPrice (num 50000) buy DEFAULT_TRADING_FEE_PERCENT)
       (num 1) buy true) < 0.
Proof.
  by apply (break_even_price_leaves_a_residual (num 50000) (num 1)).
Defined.

End profit_and_loss.

Section allocation.
Import Trading Analytics Examples.

(** X25. [calculatePortfolioAllocation] returns nothing when the positions
    are worth 0 in total at the given prices, where the total is
    [calculatePortfolioValue] without cash. Otherwise it returns one entry
    per position, in the order of the positions: the entry carries the
    symbol of the position, its value [quantity × price] at the price of
    the map (the cached current price when the map has none or 0), and that
    value divided by the total, times 100. When no position has a negative
    value, every percentage lies between 0 and 100. *)
Theorem allocation_per_position (positions : list Position.t)
    (currentPrices : gmap string number) :
  let value position :=
    calculatePositionValue (Position.quantity position)
      (number_or (currentPrices !! Position.symbol position)
                 (Position.currentPrice position)) in
  let total := calculatePortfolioValue 0 positions currentPrices in
  let allocation := calculatePortfolioAllocation positions currentPrices in
  (total = 0 → allocation = []) ∧
  (total ≠ 0 →
   length allocation = length positions ∧
   ∀ k position,
     positions !! k = Some position →
     allocation !! k
     = Some (Allocation.mk (Position.symbol position) (value position)
                           (value position / total * num 100))) ∧
  (Forall (λ position, 0 ≤ value position) positions →
   Forall (λ entry, 0 ≤ Allocation.percentage entry ∧
                    Allocation.percentage entry ≤ num 100) allocation).
Proof.
  intros value total allocation. subst total allocation.
  rewrite calculatePortfolioValue_sum, Qcplus_0_l.
  unfold calculatePortfolioAllocation.
  rewrite (foldl_Qcsum value), Qcplus_0_l.
  change (λ p : Position.t,
            Position.quantity p *
            number_or (currentPrices !! Position.symbol p)
                      (Position.currentPrice p)) with value.
  set (total := Qcsum (value <$> positions)).
  split_and!.
  - intros Hzero. by rewrite decide_True.
  - intros Hne. rewrite decide_False by done. split.
    + by rewrite length_fmap.
    + intros k position Hk. by rewrite list_lookup_fmap, Hk.
  - intros Hvalues. destruct (decide (total = 0)) as [|Hne]; [constructor|].
    assert (Forall (λ y, 0 ≤ y) (value <$> positions)) as Hnonneg
      by (by apply Forall_fmap).
    assert (0 < total) as Hpos.
    { destruct (Qcle_lt_or_eq _ _ (Qcsum_nonneg _ Hnonneg)) as [Hlt|Heq];
        [done|]. by destruct Hne. }
    apply Forall_fmap, Forall_forall. intros position Hin.
    cbn [Allocation.percentage compose].
    assert (0 ≤ value position) as Hvalue
      by (by apply (proj1 (Forall_forall _ _) Hvalues)).
    assert (value position ≤ total) as Hshare.
    { apply Qcsum_member_le; [done|]. by apply list_elem_of_fmap_2. }
    split.
    + replace 0 with (0 * num 100) by ring.
      apply Qcmult_le_compat_r; [by apply Qcdiv_nonneg|by apply (num_le 0 100)].
    + replace (num 100) with (1 * num 100) at 2 by ring.
      apply Qcmult_le_compat_r; [by apply Qcdiv_le_one|by apply (num_le 0 100)].
Qed.

Lemma allocation_per_position_witness :
  Forall (λ entry, 0 ≤ Allocation.percentage entry ∧
                   Allocation.percentage entry ≤ num 100)
         (calculatePortfolioAllocation [Positions.btc; Positions.eth]
                                       Positions.prices).
Proof.
  apply (allocation_per_position [Positions.btc; Positions.eth] Positions.prices).
  repeat constructor; cbn;
    change (Position.symbol Positions.btc) with "BTC";
    change (Position.symbol Positions.eth) with "ETH";
    unfold Positions.prices;
    rewrite ?lookup_insert_eq, ?lookup_insert_ne, ?lookup_singleton_eq by done;
    done.
Defined.

End allocation.


Section risk.
Import Trading Analytics Examples.

Lemma Math_abs_positive (x : number) : x ≠ 0 → 0 < Math_abs x.
Proof.
  intros Hx. unfold Math_abs.
  destruct (Qcle_lt_or_eq _ _ (Qcabs.Qcabs_nonneg x)) as [Hlt|Heq]; [done|].
  destruct Hx. by apply Qcabs.Qcabs_null.
Qed.

(** X26. [calculatePositionSize] risks the given percentage of the
    balance, [accountBalance × (riskPercentage / 100)], over the distance
    between entry and stop-loss price, which is the same whether the stop
    lies below or above the entry. When the two prices differ the distance
    is positive and the quantity is the risk amount divided by it; when
    they are equal nothing is divided and the quantity is 0. For a balance
    and a percentage that are not negative the quantity is not negative. *)
Theorem position_size_guards_the_stop_distance
    (accountBalance entryPrice stopLossPrice riskPercentage : number) :
  let size :=
    calculatePositionSize accountBalance entryPrice stopLossPrice riskPercentage in
  PositionSize.riskAmount size = accountBalance * (riskPercentage / num 100) ∧
  PositionSize.stopLossDistance size
    = PositionSize.stopLossDistance
        (calculatePositionSize accountBalance stopLossPrice entryPrice
                               riskPercentage) ∧
  (entryPrice ≠ stopLossPrice →
   0 < PositionSize.stopLossDistance size ∧
   PositionSize.maxQuantity size
   = PositionSize.riskAmount size / PositionSize.stopLossDistance size) ∧
  (entryPrice = stopLossPrice → PositionSize.maxQuantity size = 0) ∧
  (0 ≤ accountBalance → 0 ≤ riskPercentage → 0 ≤ PositionSize.maxQuantity size).
Proof.
  intros size. subst size. unfold calculatePositionSize.
  cbn [PositionSize.riskAmount PositionSize.stopLossDistance
       PositionSize.maxQuantity].
  split_and!.
  - done.
  - unfold Math_abs. apply Qcabs.Qcabs_Qcminus.
  - intros Hne.
    assert (0 < Math_abs (entryPrice - stopLossPrice)) as Hpos.
    { apply Math_abs_positive. intros Hzero. apply Hne.
      rewrite <- (Qcplus_0_l stopLossPrice), <- Hzero. ring. }
    by rewrite (decide_True _ _ Hpos).
  - intros ->. rewrite decide_False; [done|].
    replace (stopLossPrice - stopLossPrice) with 0 by ring.
    unfold Math_abs. rewrite Qcabs.Qcabs_pos by apply Qcle_refl.
    apply (irreflexivity Qclt).
  - intros Hbalance Hrisk.
    destruct (decide (0 < Math_abs (entryPrice - stopLossPrice))) as [Hpos|];
      [|apply Qcle_refl].
    apply Qcdiv_nonneg; [|done].
    replace 0 with (0 * (riskPercentage / num 100)) by ring.
    apply Qcmult_le_compat_r; [done|].
    apply Qcdiv_nonneg; [done|reflexivity].
Qed.

Lemma position_size_guards_the_stop_distance_witness :
  PositionSize.maxQuantity
    (calculatePositionSize (num 100000) (num 50000) (num 49000) 1)
  = PositionSize.riskAmount
      (calculatePositionSize (num 100000) (num 50000) (num 49000) 1)
    / PositionSize.stopLossDistance
        (calculatePositionSize (num 100000) (num 50000) (num 49000) 1).
Proof.
  apply (position_size_guards_the_stop_distance (num 100000) (num 50000)
           (num 49000) 1).
  discriminate.
Defined.

(** X27. [checkSlippage] reports the distance between the two prices,
    which is never negative, and accepts the fill exactly when the reported
    percentage is at most the tolerance. The percentage is never negative,
    so a negative tolerance accepts nothing; it is 0 when the fill is at
    the expected price. For an expected price of 0 or less the percentage
    is reported as 0 whatever the fill, and every fill is acceptable under
    a tolerance that is not negative. *)
Theorem checkSlippage_edges
    (expectedPrice actualPrice maxSlippagePercent : number) :
  let checked := checkSlippage expectedPrice actualPrice maxSlippagePercent in
  Slippage.slippageAmount checked = Math_abs (actualPrice - expectedPrice) ∧
  0 ≤ Slippage.slippageAmount checked ∧
  0 ≤ Slippage.slippagePercent checked ∧
  (Slippage.isAcceptable checked = true ↔
   Slippage.slippagePercent checked ≤ maxSlippagePercent) ∧
  (maxSlippagePercent < 0 → Slippage.isAcceptable checked = false) ∧
  (actualPrice = expectedPrice → Slippage.slippagePercent checked = 0) ∧
  (expectedPrice ≤ 0 →
   Slippage.slippagePercent checked = 0 ∧
   (0 ≤ maxSlippagePercent → Slippage.isAcceptable checked = true)).
Proof.
  intros checked. subst checked. unfold checkSlippage.
  cbn [Slippage.isAcceptable Slippage.slippagePercent Slippage.slippageAmount].
  assert (0 ≤ Math_abs (actualPrice - expectedPrice)) as Hamount
    by apply Qcabs.Qcabs_nonneg.
  assert (0 ≤ (if decide (0 < expectedPrice)
               then Math_abs (actualPrice - expectedPrice) / expectedPrice
                    * num 100
               else 0)) as Hpercent.
  { destruct (decide (0 < expectedPrice)); [|apply Qcle_refl].
    replace 0 with (0 * num 100) by ring.
    apply Qcmult_le_compat_r; [by apply Qcdiv_nonneg|by apply (num_le 0 100)]. }
  split_and!.
  - done.
  - done.
  - done.
  - apply bool_decide_eq_true.
  - intros Hnegative. apply bool_decide_eq_false. intros Hle.
    apply (Qcle_not_lt _ _ (Qcle_trans _ _ _ Hpercent Hle)). done.
  - intros ->. destruct (decide (0 < expectedPrice)); [|done].
    replace (expectedPrice - expectedPrice) with 0 by ring.
    unfold Math_abs. rewrite Qcabs.Qcabs_pos by apply Qcle_refl.
    unfold Qcdiv. ring.
  - intros Hle. rewrite decide_False by (by apply Qcle_not_lt).
    split; [done|]. intros Htolerance. by apply bool_decide_eq_true.
Qed.

Lemma checkSlippage_edges_witness :
  Slippage.isAcceptable (checkSlippage 0 (num 1000000) (num 1)) = true.
Proof.
  destruct (checkSlippage_edges 0 (num 1000000) (num 1))
    as (_ & _ & _ & _ & _ & _ & Hfree).
  destruct (Hfree (Qcle_refl 0)) as [_ Hany].
  apply Hany. by apply Qclt_le_weak.
Defined.

End risk.

Section drawdown.
Import Analytics Examples.

(** The invariant of the loop of [calculateMaxDrawdown] after the values
    [seen]: the running peak is the largest of them, and the result so far
    is their largest fall from an earlier value to a later one. *)
Let tracked (seen : list number) (acc : Drawdown.t * number) : Prop :=
  (∀ i a, seen !! i = Some a → a ≤ acc.2) ∧
  (∃ i, seen !! i = Some acc.2) ∧
  Drawdown.maxDrawdown acc.1
    = Drawdown.peakValue acc.1 - Drawdown.troughValue acc.1 ∧
  0 ≤ Drawdown.maxDrawdown acc.1 ∧
  Drawdown.maxDrawdownPercent acc.1
    = (if decide (0 < Drawdown.peakValue acc.1)
       then Drawdown.maxDrawdown acc.1 / Drawdown.peakValue acc.1 * num 100
       else 0) ∧
  (∀ i j a b, (i ≤ j)%nat → seen !! i = Some a → seen !! j = Some b →
     a - b ≤ Drawdown.maxDrawdown acc.1) ∧
  (∃ i j, (i ≤ j)%nat ∧ seen !! i = Some (Drawdown.peakValue acc.1) ∧
          seen !! j = Some (Drawdown.troughValue acc.1)).

Lemma drawdownStep_tracked (seen : list number) (acc : Drawdown.t * number)
    (value : number) :
  tracked seen acc → tracked (seen ++ [value]) (drawdownStep acc value).
Proof.
  destruct acc as [best peak].
  intros (Hpeak & [ip Hip] & Hmd & Hnonneg & Hpct & Hpairs &
          (i0 & j0 & Hij & Hi0 & Hj0)).
  cbn [fst snd] in *. unfold drawdownStep. cbv zeta.
  set (peak' := if decide (peak < value) then value else peak).
  assert (value ≤ peak') as Hvalue.
  { subst peak'. destruct (decide (peak < value)) as [|Hn];
      [apply Qcle_refl|by apply Qcnot_lt_le]. }
  assert (peak ≤ peak') as Hgrow.
  { subst peak'. destruct (decide (peak < value));
      [by apply Qclt_le_weak|apply Qcle_refl]. }
  assert (∃ i, (seen ++ [value]) !! i = Some peak') as [ip' Hip'].
  { subst peak'. destruct (decide (peak < value)).
    - exists (length seen). by apply list_lookup_middle.
    - exists ip. by apply lookup_app_l_Some. }
  assert (ip' ≤ length seen)%nat as Hip'le.
  { apply lookup_lt_Some in Hip'. rewrite length_app in Hip'. simpl in Hip'. lia. }
  assert (∀ i a, (seen ++ [value]) !! i = Some a → a ≤ peak') as Hpeak'.
  { intros i a [Ha|[_ Ha]]%lookup_app_Some.
    - eapply Qcle_trans; [by eapply Hpeak|done].
    - by apply list_lookup_singleton_Some in Ha as [_ <-]. }
  destruct (decide (Drawdown.maxDrawdown best < peak' - value)) as [Hlt|Hge];
    unfold tracked; cbn [fst snd Drawdown.maxDrawdown Drawdown.peakValue
      Drawdown.troughValue Drawdown.maxDrawdownPercent].
  - split_and!.
    + done.
    + by exists ip'.
    + done.
    + by apply Qcminus_nonneg.
    + done.
    + intros i j a b Hle Ha Hb.
      apply lookup_app_Some in Hb as [Hb|[Hlen Hb]].
      * assert (seen !! i = Some a) as Ha'.
        { apply lookup_lt_Some in Hb. by rewrite lookup_app_l in Ha by lia. }
        eapply Qcle_trans; [by eapply Hpairs|by apply Qclt_le_weak].
      * apply list_lookup_singleton_Some in Hb as [_ <-].
        apply Qcminus_le_compat_r. by eapply Hpeak'.
    + exists ip', (length seen).
      split_and!; [done|done|by apply list_lookup_middle].
  - apply Qcnot_lt_le in Hge. split_and!.
    + done.
    + by exists ip'.
    + done.
    + done.
    + done.
    + intros i j a b Hle Ha Hb.
      apply lookup_app_Some in Hb as [Hb|[Hlen Hb]].
      * assert (seen !! i = Some a) as Ha'.
        { apply lookup_lt_Some in Hb. by rewrite lookup_app_l in Ha by lia. }
        by eapply Hpairs.
      * apply list_lookup_singleton_Some in Hb as [_ <-].
        eapply Qcle_trans; [|exact Hge].
        apply Qcminus_le_compat_r. by eapply Hpeak'.
    + exists i0, j0. split_and!; [done|by apply lookup_app_l_Some..].
Qed.

Lemma foldl_drawdownStep_tracked (later seen : list number)
    (acc : Drawdown.t * number) :
  tracked seen acc → tracked (seen ++ later) (foldl drawdownStep acc later).
Proof.
  revert seen acc. induction later as [|value later IH]; intros seen acc Hacc.
  - by rewrite app_nil_r.
  - simpl. rewrite (assoc_L (++) seen [value] later : seen ++ value :: later = _).
    by apply IH, drawdownStep_tracked.
Qed.

(** X28. [calculateMaxDrawdown] returns the largest fall of the series
    from a value to a later one: no value exceeds a later value by more
    than [maxDrawdown], which is never negative, and for a series that is
    not empty [maxDrawdown] is the fall from [peakValue] to [troughValue],
    two values of the series of which the trough does not come before the
    peak. [maxDrawdownPercent] is that fall as a percentage of the peak
    when the peak is positive, and 0 otherwise. *)
Theorem max_drawdown_is_the_largest_fall (portfolioValues : list number) :
  let drawdown := calculateMaxDrawdown portfolioValues in
  Drawdown.maxDrawdown drawdown
    = Drawdown.peakValue drawdown - Drawdown.troughValue drawdown ∧
  0 ≤ Drawdown.maxDrawdown drawdown ∧
  Drawdown.maxDrawdownPercent drawdown
    = (if decide (0 < Drawdown.peakValue drawdown)
       then Drawdown.maxDrawdown drawdown / Drawdown.peakValue drawdown * num 100
       else 0) ∧
  (∀ i j a b, (i ≤ j)%nat →
     portfolioValues !! i = Some a → portfolioValues !! j = Some b →
     a - b ≤ Drawdown.maxDrawdown drawdown) ∧
  (portfolioValues ≠ [] →
   ∃ i j, (i ≤ j)%nat ∧
     portfolioValues !! i = Some (Drawdown.peakValue drawdown) ∧
     portfolioValues !! j = Some (Drawdown.troughValue drawdown)).
Proof.
  intros drawdown. subst drawdown.
  destruct portfolioValues as [|first rest].
  - cbn. split_and!; [ring|apply Qcle_refl|done|done|done].
  - unfold calculateMaxDrawdown.
    assert (tracked ([first] ++ rest)
              (foldl drawdownStep (Drawdown.mk 0 0 first first, first)
                     (first :: rest))) as Htracked.
    { change (foldl drawdownStep ?acc (first :: rest))
        with (foldl drawdownStep (drawdownStep acc first) rest).
      apply foldl_drawdownStep_tracked.
      assert (¬ first < first) as Hirr by apply (irreflexivity Qclt).
      unfold drawdownStep. cbv zeta. rewrite (decide_False _ _ Hirr).
      cbn [Drawdown.maxDrawdown].
      rewrite decide_False.
      2:{ replace (first - first) with 0 by ring. apply (irreflexivity Qclt). }
      unfold tracked. cbn [fst snd Drawdown.maxDrawdown Drawdown.peakValue
        Drawdown.troughValue Drawdown.maxDrawdownPercent].
      split_and!.
      - intros i a [-> <-]%list_lookup_singleton_Some. apply Qcle_refl.
      - by exists 0%nat.
      - ring.
      - apply Qcle_refl.
      - destruct (decide (0 < first)); [|done]. unfold Qcdiv. ring.
      - intros i j a b _ [_ <-]%list_lookup_singleton_Some
          [_ <-]%list_lookup_singleton_Some.
        replace (first - first) with 0 by ring. apply Qcle_refl.
      - by exists 0%nat, 0%nat. }
    destruct Htracked as (_ & _ & Hmd & Hnonneg & Hpct & Hpairs & Hattained).
    by split_and!.
Qed.

Lemma max_drawdown_is_the_largest_fall_witness :
  num 120 - num 90
  ≤ Drawdown.maxDrawdown
      (calculateMaxDrawdown [num 100; num 120; num 90; num 110]).
Proof.
  destruct (max_drawdown_is_the_largest_fall
              [num 100; num 120; num 90; num 110])
    as (_ & _ & _ & Hpairs & _).
  apply (Hpairs 1%nat 2%nat); [lia|reflexivity|reflexivity].
Defined.

End drawdown.

Section exposure.
Import Trading Analytics Examples.

Lemma foldl_Math_max_nonneg (l : list number) (a : number) :
  0 ≤ a → 0 ≤ foldl Math_max a l.
Proof.
  revert a. induction l as [|x l IH]; intros a Ha; [done|].
  simpl. apply IH. unfold Math_max.
  destruct (decide (a < x)) as [Hlt|]; [|done].
  eapply Qcle_trans; [exact Ha|by apply Qclt_le_weak].
Qed.

Lemma foldl_Math_max_le_sum (l : list number) (a : number) :
  0 ≤ a → Forall (λ x, 0 ≤ x) l → foldl Math_max a l ≤ a + Qcsum l.
Proof.
  intros Ha Hl. revert a Ha. induction Hl as [|x l Hx _ IH]; intros a Ha.
  - simpl. rewrite Qcplus_0_r. apply Qcle_refl.
  - simpl. eapply Qcle_trans.
    + apply IH. unfold Math_max.
      destruct (decide (a < x)); [done|done].
    + rewrite Qcplus_assoc.
      apply Qcplus_le_compat; [|apply Qcle_refl].
      unfold Math_max. destruct (decide (a < x)).
      * by apply Qcle_plus_nonneg_l.
      * by apply Qcle_plus_nonneg_r.
Qed.

(** X29. The figures of [calculateRiskMetrics] stay within their ranges:
    the total exposure and the leverage ratio are never negative, the
    largest single position's share of the exposure lies between 0 and
    100 percent, and for a list of positions that is not empty the
    diversification score is one over their number. *)
Theorem risk_metrics_ranges (positions : list Position.t)
    (currentPrices : gmap string number) (portfolio : Portfolio.t) :
  let metrics := calculateRiskMetrics positions currentPrices portfolio in
  0 ≤ RiskMetrics.totalExposure metrics ∧
  0 ≤ RiskMetrics.maxPositionRisk metrics ∧
  RiskMetrics.maxPositionRisk metrics ≤ num 100 ∧
  0 ≤ RiskMetrics.leverageRatio metrics ∧
  (positions ≠ [] →
   RiskMetrics.diversificationScore metrics
   = 1 / num (Z.of_nat (length positions))).
Proof.
  intros metrics. subst metrics. unfold calculateRiskMetrics.
  set (exposure := λ position : Position.t,
         Math_abs (calculatePositionValue (Position.quantity position)
                     (number_or (currentPrices !! Position.symbol position)
                                (Position.currentPrice position)))).
  assert (∀ p, 0 ≤ exposure p) as Hexposure
    by (intros p; apply Qcabs.Qcabs_nonneg).
  destruct positions as [|first rest].
  - cbn. split_and!; try apply Qcle_refl; done.
  - cbn [RiskMetrics.totalExposure RiskMetrics.maxPositionRisk
         RiskMetrics.leverageRatio RiskMetrics.diversificationScore].
    rewrite (foldl_Qcsum exposure), Qcplus_0_l.
    set (total := Qcsum (exposure <$> first :: rest)).
    assert (Forall (λ x, 0 ≤ x) (exposure <$> rest)) as Hrest.
    { apply Forall_fmap, Forall_forall. intros p _. apply Hexposure. }
    assert (0 ≤ total) as Htotal.
    { apply Qcsum_nonneg. rewrite fmap_cons. constructor; [apply Hexposure|done]. }
    assert (foldl Math_max (exposure first) (exposure <$> rest) ≤ total) as Hmax
      by (by apply foldl_Math_max_le_sum).
    assert (0 ≤ foldl Math_max (exposure first) (exposure <$> rest)) as Hmax0
      by (by apply foldl_Math_max_nonneg).
    split_and!.
    + done.
    + destruct (decide (0 < total)) as [Hpos|]; [|apply Qcle_refl].
      replace 0 with (0 * num 100) by ring.
      apply Qcmult_le_compat_r; [by apply Qcdiv_nonneg|by apply (num_le 0 100)].
    + destruct (decide (0 < total)) as [Hpos|]; [|by apply (num_le 0 100)].
      replace (num 100) with (1 * num 100) at 2 by ring.
      apply Qcmult_le_compat_r; [by apply Qcdiv_le_one|by apply (num_le 0 100)].
    + destruct (decide (0 < Portfolio.currentBalance portfolio));
        [by apply Qcdiv_nonneg|apply Qcle_refl].
    + intros _. unfold Math_min.
      destruct (decide (1 / num (Z.of_nat (length (first :: rest))) < 1))
        as [|Hnlt]; [done|].
      apply Qcnot_lt_le in Hnlt. apply Qcle_antisym; [done|].
      assert (1 ≤ num (Z.of_nat (length (first :: rest)))) as Hone
        by (apply (num_le 1); simpl; lia).
      apply Qcdiv_le_one; [done|].
      eapply Qclt_le_trans; [|exact Hone]. reflexivity.
Qed.

Lemma risk_metrics_ranges_witness :
  RiskMetrics.diversificationScore
    (calculateRiskMetrics [Positions.btc; Positions.eth] Positions.prices
       (Portfolio.mk "p1" "Main" (num 100000) (num 100000) (num 100000)
                     0 0 0 0))
  = 1 / num 2.
Proof.
  by apply (risk_metrics_ranges [Positions.btc; Positions.eth]).
Defined.

End exposure.

(** * The position store: orders *)

Section position_orders.
Import Trading PositionStore Book Examples.

(** X30. [addOrder] appends the order as a pending one under the returned
    id, with the given portfolio, symbol, side, type, quantity and price,
    and [getOrdersByPortfolio] lists it for its portfolio; positions and
    transactions are untouched. When no earlier order carries the returned
    id, [cancelOrder] with that id changes the status of this order to
    cancelled and nothing else in the store. *)
Theorem placed_order_is_pending_until_cancelled (orderData : OrderData.t)
    (state : PositionStoreState) (h h' : Host) :
  let id := result (addOrder orderData) state h in
  let placed := exec (addOrder orderData) state h in
  let withdrawn := exec (cancelOrder id) placed h' in
  Forall (λ o, Order.id o ≠ id) (orders state) →
  ∃ order,
    orders placed = orders state ++ [order] ∧
    positions placed = positions state ∧
    transactions placed = transactions state ∧
    Order.id order = id ∧
    Order.status order = pending ∧
    Order.portfolioId order = OrderData.portfolioId orderData ∧
    Order.symbol order = OrderData.symbol orderData ∧
    Order.side order = OrderData.side orderData ∧
    Order.type order = OrderData.type orderData ∧
    Order.quantity order = OrderData.quantity orderData ∧
    Order.price order = OrderData.price orderData ∧
    order ∈ getOrdersByPortfolio placed (OrderData.portfolioId orderData) ∧
    orders withdrawn
      = orders state ++
        [Order.mk (Order.id order) (Order.portfolioId order) (Order.symbol order)
           (Order.side order) (Order.type order) (Order.quantity order)
           (Order.price order) cancelled (Order.createdAt order)
           (Order.filledAt order) (Order.filledPrice order)] ∧
    positions withdrawn = positions state ∧
    transactions withdrawn = transactions state.
Proof.
  intros id placed withdrawn Hfresh. subst id placed withdrawn.
  revert Hfresh.
  unfold exec, result, addOrder, cancelOrder, updateOrder, generateId,
    Date_now, Math_random_suffix, bind, ret, set.
  cbn [fst snd positions transactions orders]. intros Hfresh.
  eexists (Order.mk _ _ _ _ _ _ _ _ _ _ _).
  split; [reflexivity|].
  cbn [Order.id Order.portfolioId Order.symbol Order.side Order.type
       Order.quantity Order.price Order.status Order.createdAt Order.filledAt
       Order.filledPrice].
  split_and!; try done.
  - unfold getOrdersByPortfolio. rewrite sortBy_Permutation.
    apply list_elem_of_filter. split; [done|].
    cbn [orders]. apply elem_of_app. right. apply list_elem_of_singleton. done.
  - rewrite fmap_app. f_equal.
    + rewrite <- (list_fmap_id (orders state)) at 2.
      apply Forall_fmap_ext_1. eapply Forall_impl; [exact Hfresh|].
      intros o Ho. simpl. by rewrite decide_False.
    + simpl. by rewrite decide_True.
Qed.

Lemma placed_order_is_pending_until_cancelled_witness :
  ∃ order,
    orders (exec (addOrder (OrderData.mk "p1" "BTC" buy market (num 1) None
                              None None))
                 initialState host0) = [order] ∧
    Order.status order = pending.
Proof.
  destruct (placed_order_is_pending_until_cancelled
              (OrderData.mk "p1" "BTC" buy market (num 1) None None None)
              initialState host0 host0 (Forall_nil_2 _))
    as (order & Horders & _ & _ & _ & Hstatus & _).
  by exists order.
Defined.

End position_orders.
